(** * yonnde: dictionary index, lookup and structured-content flattening

    A shallow embedding of the two implementations that live in the
    repository:

    - the class-based one ([src/index.ts]): [DictionarySearcher] with its
      term and reading maps, [_formatEntry], [findTerm], and the query
      handling of [DictionaryApp];
    - the functional one ([src/unnamed/part_001], the TypeScript source of
      [src/index.js]): [loadDictionaries] into a per-collection map,
      [logContent], [getBasicForm] and the per-collection query loop of
      [main].

    JavaScript strings are sequences of UTF-16 code units, JSON data is an
    inductive type of values, exceptions are an explicit result type, and
    the console is a list of log lines. *)

From Stdlib Require Import String Ascii ZArith NArith List Bool Lia.
From stdpp Require Import base option list gmap.
Import ListNotations.

Local Open Scope N_scope.

(** ** JavaScript strings *)

Module JS.

(** A string is the list of its UTF-16 code units. *)
Abbreviation jsstring := (list N).

(** [lit "abc"] is the JavaScript string literal ['abc'] (ASCII only). *)
Definition lit (s : string) : jsstring :=
  List.map N_of_ascii (list_ascii_of_string s).
Arguments lit : simpl never.

Definition nl : N := 10.
Definition space : N := 32.

Definition jsstring_eqb (a b : jsstring) : bool := bool_decide (a = b).

(** ECMAScript WhiteSpace and LineTerminator code points: what
    [String.prototype.trim] strips. *)
Definition isWhiteSpace (c : N) : bool :=
  (c =? 9) || (c =? 10) || (c =? 11) || (c =? 12) || (c =? 13) || (c =? 32)
  || (c =? 160) || (c =? 5760) || ((8192 <=? c) && (c <=? 8202))
  || (c =? 8232) || (c =? 8233) || (c =? 8239) || (c =? 8287)
  || (c =? 12288) || (c =? 65279).

Fixpoint trimStart (s : jsstring) : jsstring :=
  match s with
  | [] => []
  | c :: rest => if isWhiteSpace c then trimStart rest else s
  end.

Definition trimEnd (s : jsstring) : jsstring := rev (trimStart (rev s)).

(** [s.trim()] *)
Definition trim (s : jsstring) : jsstring := trimEnd (trimStart s).

(** [s.split(sep)] for a separator of one code unit. *)
Fixpoint split (sep : N) (s : jsstring) : list jsstring :=
  match s with
  | [] => [[]]
  | c :: rest =>
      if c =? sep then [] :: split sep rest
      else match split sep rest with
           | [] => [[c]]
           | w :: ws => (c :: w) :: ws
           end
  end.

(** [parts.join(sep)] on an array of strings. *)
Fixpoint join (sep : jsstring) (parts : list jsstring) : jsstring :=
  match parts with
  | [] => []
  | [p] => p
  | p :: rest => p ++ sep ++ join sep rest
  end.

(** A string is truthy when it is not empty. *)
Definition nonEmpty (s : jsstring) : bool :=
  match s with [] => false | _ :: _ => true end.

(** ** JavaScript values, as [JSON.parse] builds them

    [JUndefined] is not a JSON value; it is what reading a missing array
    position or a missing property gives. Numbers are the integers of the
    term-bank format (score, sequence). An object is the list of its own
    properties. *)
#[local] Unset Elimination Schemes.
Inductive JSValue : Type :=
| JUndefined
| JNull
| JBool (b : bool)
| JNum (z : Z)
| JStr (s : jsstring)
| JArr (items : list JSValue)
| JObj (props : list (jsstring * JSValue)).
#[local] Set Elimination Schemes.

(** ToBoolean *)
Definition truthy (v : JSValue) : bool :=
  match v with
  | JUndefined | JNull => false
  | JBool b => b
  | JNum z => negb (z =? 0)%Z
  | JStr s => nonEmpty s
  | JArr _ | JObj _ => true
  end.

(** [a || b] *)
Definition js_or (a b : JSValue) : JSValue := if truthy a then a else b.

Definition isArray (v : JSValue) : bool :=
  match v with JArr _ => true | _ => false end.


(** [obj.name] on the own properties of an object. *)
Fixpoint get_prop (name : jsstring) (props : list (jsstring * JSValue)) : JSValue :=
  match props with
  | [] => JUndefined
  | (k, v) :: rest => if jsstring_eqb k name then v else get_prop name rest
  end.

(** Exceptions *)
Inductive Exn : Type :=
| TypeError
| SyntaxError
| Error (message : jsstring).

Inductive result (A : Type) : Type :=
| Ok (a : A)
| Throw (e : Exn).
Arguments Ok {A} a.
Arguments Throw {A} e.

#[global] Instance result_ret : MRet result := fun _ a => Ok a.
#[global] Instance result_bind : MBind result := fun _ _ k r =>
  match r with
  | Ok a => k a
  | Throw e => Throw e
  end.

(** Decimal digits of an array index, the property name [v[i]] reads on an
    object. *)
Definition digit (n : nat) : N := 48 + N.of_nat n.

Fixpoint index_name_fuel (fuel n : nat) : jsstring :=
  match fuel with
  | O => [digit n]
  | S f => if (n <? 10)%nat then [digit n]
           else index_name_fuel f (n / 10) ++ [digit (n mod 10)]
  end.

Definition index_name (n : nat) : jsstring := index_name_fuel n n.

(** [v[i]]: a position of an array, a code unit of a string, a property of
    an object; [undefined] on a number or a boolean; a TypeError on [null]
    and [undefined]. *)
Definition get_index (v : JSValue) (i : nat) : result JSValue :=
  match v with
  | JArr items => Ok (nth i items JUndefined)
  | JStr s => Ok (match nth_error s i with Some c => JStr [c] | None => JUndefined end)
  | JObj props => Ok (get_prop (index_name i) props)
  | JBool _ | JNum _ => Ok JUndefined
  | JNull | JUndefined => Throw TypeError
  end.

(** Abrupt and normal completion of a statement that mutates a state: the
    mutations made before a throw stay. *)
Inductive completion (S : Type) : Type :=
| Normal (s : S)
| Abrupt (e : Exn) (s : S).
Arguments Normal {S} s.
Arguments Abrupt {S} e s.

(** [for (const x of xs) body] *)
Fixpoint forOf {S A} (body : S -> A -> completion S) (xs : list A) (s : S) : completion S :=
  match xs with
  | [] => Normal s
  | x :: rest =>
      match body s x with
      | Normal s' => forOf body rest s'
      | Abrupt e s' => Abrupt e s'
      end
  end.

(** The functions of the JavaScript and Node libraries that the program
    calls and this development does not define. [JSON_parse] gives [None]
    where [JSON.parse] throws a SyntaxError. *)
Class Library : Type := {
  JSON_parse : jsstring -> option JSValue;
  JSON_stringify : JSValue -> jsstring;
  String_ : JSValue -> jsstring;
  path_join : jsstring -> jsstring -> jsstring;
  path_extname : jsstring -> jsstring;
}.

(** The directory tree under [collectionsDir], as [fs.readdir], [fs.stat]
    and [fs.readFile] show it (reads succeed). *)
Record File : Type := { fileName : jsstring; fileData : jsstring }.

Inductive DirEntry : Type :=
| Directory (files : list File)
| NotDirectory.

Abbreviation Root := (list (jsstring * DirEntry)).

(** Lines written with [console.log] and [console.error]. *)
Inductive LogLine : Type :=
| LogInfo (text : jsstring)
| LogError (text : jsstring).

(** A token of the kuromoji tokenizer, and the tokenizer. *)
Module Kuromoji.
Record Token : Type := {
  basic_form : jsstring;
  pos : jsstring;
  pos_detail_1 : jsstring;
  pos_detail_2 : jsstring;
  pos_detail_3 : jsstring;
  conjugated_type : jsstring;
  conjugated_form : jsstring;
  reading : jsstring;
  pronunciation : jsstring;
  surface_form : jsstring;
}.
End Kuromoji.

Abbreviation KuromojiTokenizer := (jsstring -> list Kuromoji.Token).

(** What a query does that can be observed: a line on the console, or a
    call of [getBasicForm] with its argument. *)
Inductive Event : Type :=
| ConsoleLog (line : jsstring)
| GetBasicForm (searchTerm : jsstring).

End JS.

(** ** The class-based implementation ([src/index.ts]) *)

Module Searcher.
Import JS.

(** A formatted entry. [ref] is the identity of the object: entries are
    numbered in the order [_formatEntry] creates them, and two entries are
    the same object exactly when they have the same [ref]. *)
Record DictionaryEntry : Type := {
  ref : nat;
  term : JSValue;
  reading : JSValue;
  tags : list jsstring;
  rules : JSValue;
  score : JSValue;
  definitions : list jsstring;
  sequence : JSValue;
  termTags : JSValue;
}.

Section WithLibrary.
Context {lib : Library}.

(** [formatDefinition] of [_formatEntry], lines 138-152. In the object
    case the inner loop reads [def.content]. *)
Fixpoint formatDefinition (def : JSValue) : jsstring :=
  match def with
  | JStr s => s
  | JObj props =>
      (fix content (ps : list (jsstring * JSValue)) : jsstring :=
         match ps with
         | [] => JSON_stringify def
         | (k, c) :: rest =>
             if jsstring_eqb k (lit "content") then
               if truthy c then
                 match c with
                 | JArr items => join (lit "; ") (List.map formatDefinition items)
                 | _ => formatDefinition c
                 end
               else JSON_stringify def
             else content rest
         end) props
  | JArr _ => JSON_stringify def
  | _ => String_ def
  end.

(** [(rawEntry[2] || '').split(' ').filter((t) => t)]: a value that is
    truthy and not a string has no [split] method. *)
Definition formatTags (v : JSValue) : result (list jsstring) :=
  match js_or v (JStr []) with
  | JStr s => Ok (List.filter nonEmpty (split space s))
  | _ => Throw TypeError
  end.

(** [_formatEntry(rawEntry)], lines 137-168; [r] is the identity of the
    object it returns. *)
Definition _formatEntry (rawEntry : JSValue) (r : nat) : result DictionaryEntry :=
  e5 ← get_index rawEntry 5;
  let defs := match e5 with
              | JArr items => List.map formatDefinition items
              | _ => [formatDefinition e5]
              end in
  e0 ← get_index rawEntry 0;
  e1 ← get_index rawEntry 1;
  e2 ← get_index rawEntry 2;
  tgs ← formatTags e2;
  e3 ← get_index rawEntry 3;
  e4 ← get_index rawEntry 4;
  e6 ← get_index rawEntry 6;
  e7 ← get_index rawEntry 7;
  Ok {| ref := r;
        term := e0;
        reading := e1;
        tags := tgs;
        rules := js_or e3 (JStr []);
        score := js_or e4 (JNum 0);
        definitions := defs;
        sequence := js_or e6 (JNum 0);
        termTags := js_or e7 (JStr []) |}.

End WithLibrary.

(** The two maps are [Map<string, DictionaryEntry[]>]. *)
Record DictionarySearcher : Type := {
  _termDictionaries : gmap jsstring (list DictionaryEntry);
  _readingIndex : gmap jsstring (list DictionaryEntry);
  _isReady : bool;
}.

(** [new DictionarySearcher()] *)
Definition constructor : DictionarySearcher :=
  {| _termDictionaries := ∅; _readingIndex := ∅; _isReady := false |}.

(** [if (!m.has(key)) m.set(key, []); m.get(key)?.push(e)], lines 92-114.
    The maps are read with string keys only ([findTerm] takes a string);
    a key that is not a string, which the declared type of [term] and
    [reading] excludes, opens a bucket no lookup reaches and is left out. *)
Definition index_under (key : JSValue) (e : DictionaryEntry)
    (m : gmap jsstring (list DictionaryEntry)) : gmap jsstring (list DictionaryEntry) :=
  match key with
  | JStr k =>
      let m1 := if bool_decide (is_Some (m !! k)) then m else <[k := []]> m in
      alter (fun bucket => bucket ++ [e]) k m1
  | _ => m
  end.

(** [[...new Set(xs)]]: the first occurrence of each object, in order. *)
Fixpoint uniqueObjects (xs : list DictionaryEntry) : list DictionaryEntry :=
  match xs with
  | [] => []
  | x :: rest =>
      x :: List.filter (fun y => negb (Nat.eqb (ref y) (ref x))) (uniqueObjects rest)
  end.

Definition notLoaded : Exn := Error (lit "Dictionaries not loaded").

(** [findTerm(searchTerm)], lines 126-135. *)
Definition findTerm (this : DictionarySearcher) (searchTerm : jsstring)
    : result (list DictionaryEntry) :=
  if negb (_isReady this) then Throw notLoaded
  else
    let termResults := default [] (_termDictionaries this !! searchTerm) in
    let readingResults := default [] (_readingIndex this !! searchTerm) in
    Ok (uniqueObjects (termResults ++ readingResults)).

(** The state [loadDictionaries] works on: the searcher, the number of
    entries created so far, and the console. *)
Record Run : Type := {
  this : DictionarySearcher;
  created : nat;
  console : list LogLine;
}.

Definition start_run : Run :=
  {| this := constructor; created := 0; console := [] |}.

Definition console_error (text : jsstring) (s : Run) : Run :=
  {| this := this s; created := created s; console := console s ++ [LogError text] |}.

Section Loading.
Context {lib : Library}.

(** The body of [for (const entry of entries)], lines 89-115. *)
Definition index_entry (s : Run) (entry : JSValue) : completion Run :=
  match _formatEntry entry (created s) with
  | Throw e => Abrupt e s
  | Ok formattedEntry =>
      Normal
        {| this :=
             {| _termDictionaries :=
                  index_under (term formattedEntry) formattedEntry
                    (_termDictionaries (this s));
                _readingIndex :=
                  index_under (reading formattedEntry) formattedEntry
                    (_readingIndex (this s));
                _isReady := _isReady (this s) |};
           created := S (created s);
           console := console s |}
  end.

(** [Array.isArray(parsed) ? parsed : [parsed]] *)
Definition entries_of (parsed : JSValue) : list JSValue :=
  match parsed with
  | JArr items => items
  | _ => [parsed]
  end.

(** The body of [for (const file of jsonFiles)], lines 74-116. *)
Definition load_file (collectionPath : jsstring) (s : Run) (file : File) : completion Run :=
  let filePath := path_join collectionPath (fileName file) in
  match JSON_parse (fileData file) with
  | None =>
      Normal (console_error (lit "Error parsing JSON file " ++ filePath ++ lit ":") s)
  | Some parsed => forOf index_entry (entries_of parsed) s
  end.

Definition isJsonFile (file : File) : bool :=
  jsstring_eqb (path_extname (fileName file)) (lit ".json").

(** The body of [for (const collection of collections)], lines 64-118. *)
Definition load_collection (collectionsDir : jsstring) (s : Run)
    (collection : jsstring * DirEntry) : completion Run :=
  let collectionPath := path_join collectionsDir (fst collection) in
  match snd collection with
  | Directory files =>
      forOf (load_file collectionPath) (List.filter isJsonFile files) s
  | NotDirectory => Normal s
  end.

Definition set_ready (s : Run) : Run :=
  {| this := {| _termDictionaries := _termDictionaries (this s);
                _readingIndex := _readingIndex (this s);
                _isReady := true |};
     created := created s;
     console := console s |}.

(** [loadDictionaries(collectionsDir)], lines 60-124. *)
Definition loadDictionaries (collectionsDir : jsstring) (root : Root) (s : Run)
    : completion Run :=
  match forOf (load_collection collectionsDir) root s with
  | Normal s' => Normal (set_ready s')
  | Abrupt e s' => Abrupt e (console_error (lit "Error loading dictionaries:") s')
  end.

End Loading.

(** [DictionaryApp.getBasicForm], lines 205-208, on a text for which
    [tokenize] returns: [tokenizer] gives the tokens of the call. The
    call that throws is in [Display.getBasicForm] and [Display.answer]. *)
Definition getBasicForm (tokenizer : KuromojiTokenizer) (searchTerm : jsstring) : jsstring :=
  match tokenizer searchTerm with
  | [] => searchTerm
  | token :: _ => Kuromoji.basic_form token
  end.

(** What one query of [start] does, lines 258-267: the calls of
    [getBasicForm] it makes, and the entries it hands to [displayResults]
    (or the exception of [findTerm]). *)
Definition query (searcher : DictionarySearcher) (tokenizer : KuromojiTokenizer)
    (searchTerm : jsstring) : list Event * result (list DictionaryEntry) :=
  match findTerm searcher searchTerm with
  | Throw e => ([], Throw e)
  | Ok ((_ :: _) as results) => ([], Ok results)
  | Ok [] =>
      let basicForm := getBasicForm tokenizer searchTerm in
      ([GetBasicForm searchTerm],
       if negb (jsstring_eqb basicForm searchTerm)
       then findTerm searcher basicForm
       else Ok [])
  end.

End Searcher.

(** ** The functional implementation ([src/unnamed/part_001], [src/index.js]) *)

Module Functional.
Import JS.

(** The three places where [logContent] prints the lines of a string:
    [s.split('\n').filter((line) => line.trim()).forEach((line) =>
    console.log(`${indent} ${line.trim()}`))]. One element of the result is
    one call of [console.log]. *)
Definition logLines (s indent : jsstring) : list jsstring :=
  List.map (fun line => indent ++ space :: trim line)
    (List.filter (fun line => nonEmpty (trim line)) (split nl s)).

(** [logContent(data, indent)] of part_001, lines 67-107. *)
Fixpoint logContent (data : JSValue) (indent : jsstring) {struct data} : list jsstring :=
  match data with
  | JArr items =>
      (fix forEach (l : list JSValue) : list jsstring :=
         match l with
         | [] => []
         | item :: rest =>
             match item with
             | JStr s => logLines s indent
             | JArr _ | JObj _ => logContent item indent
             | _ => []
             end ++ forEach rest
         end) items
  | JObj props =>
      (fix content (ps : list (jsstring * JSValue)) : list jsstring :=
         match ps with
         | [] => []
         | (k, c) :: rest =>
             if jsstring_eqb k (lit "content") then
               if truthy c then
                 match c with
                 | JStr s => [indent ++ space :: trim s]
                 | _ => logContent c (indent ++ [space; space])
                 end
               else []
             else content rest
         end) props
  | JStr s => logLines s indent
  | _ => []
  end.

(** The same function in [src/index.js], lines 53-93: an item of an array
    that is not a string is passed on without the test
    [typeof item === 'object' && item !== null]. *)
Fixpoint logContent_js (data : JSValue) (indent : jsstring) {struct data} : list jsstring :=
  match data with
  | JArr items =>
      (fix forEach (l : list JSValue) : list jsstring :=
         match l with
         | [] => []
         | item :: rest =>
             match item with
             | JStr s => logLines s indent
             | _ => logContent_js item indent
             end ++ forEach rest
         end) items
  | JObj props =>
      (fix content (ps : list (jsstring * JSValue)) : list jsstring :=
         match ps with
         | [] => []
         | (k, c) :: rest =>
             if jsstring_eqb k (lit "content") then
               if truthy c then
                 match c with
                 | JStr s => [indent ++ space :: trim s]
                 | _ => logContent_js c (indent ++ [space; space])
                 end
               else []
             else content rest
         end) props
  | JStr s => logLines s indent
  | _ => []
  end.

(** [Map.prototype.set] on a map kept as the list of its entries in
    insertion order. *)
Fixpoint Map_set {V} (k : jsstring) (v : V) (m : list (jsstring * V)) : list (jsstring * V) :=
  match m with
  | [] => [(k, v)]
  | (k', v') :: rest =>
      if jsstring_eqb k' k then (k, v) :: rest else (k', v') :: Map_set k v rest
  end.

(** [DictionaryMap = Map<string, DictionaryEntry[]>]: collection name to
    term bank. *)
Abbreviation DictionaryMap := (list (jsstring * list JSValue)).

Section WithLibrary.
Context {lib : Library}.

(** [termBank.concat(obj)] *)
Definition concat (termBank : list JSValue) (obj : JSValue) : list JSValue :=
  match obj with
  | JArr items => termBank ++ items
  | _ => termBank ++ [obj]
  end.

(** One callback of [jsonFiles.map(async (file) => ...)], lines 47-52;
    the files are taken to complete in the order of the list. *)
Definition read_file (termBank : list JSValue) (file : File) : result (list JSValue) :=
  match JSON_parse (fileData file) with
  | None => Throw SyntaxError
  | Some obj => Ok (concat termBank obj)
  end.

Fixpoint read_files (termBank : list JSValue) (files : list File) : result (list JSValue) :=
  match files with
  | [] => Ok termBank
  | file :: rest => termBank' ← read_file termBank file; read_files termBank' rest
  end.

Definition isJsonFile (file : File) : bool :=
  jsstring_eqb (path_extname (fileName file)) (lit ".json").

(** The body of [for (const collection of collections)], lines 35-58. *)
Definition load_collection (dictionaryMap : DictionaryMap)
    (collection : jsstring * DirEntry) : result DictionaryMap :=
  match snd collection with
  | Directory files =>
      termBank ← read_files [] (List.filter isJsonFile files);
      Ok (Map_set (fst collection) termBank dictionaryMap)
  | NotDirectory => Ok dictionaryMap
  end.

Fixpoint load_collections (dictionaryMap : DictionaryMap) (root : Root) : result DictionaryMap :=
  match root with
  | [] => Ok dictionaryMap
  | collection :: rest =>
      dictionaryMap' ← load_collection dictionaryMap collection;
      load_collections dictionaryMap' rest
  end.

(** [loadDictionaries()], lines 30-65: the console and the outcome. *)
Definition loadDictionaries (root : Root) : list LogLine * result DictionaryMap :=
  match load_collections [] root with
  | Ok dictionaryMap => ([], Ok dictionaryMap)
  | Throw err => ([LogError (lit "Error loading dictionaries:")], Throw err)
  end.

End WithLibrary.

(** [getBasicForm(searchTerm)], lines 198-210: [build] is what the
    kuromoji builder hands to its callback, an error (the promise is
    rejected with it) or a tokenizer. [tokens[0].basic_form] on an empty
    array is a TypeError, thrown in the callback before [resolve]: the
    promise gives no basic form and the query that waits for it goes no
    further. *)
Definition getBasicForm (build : result KuromojiTokenizer) (searchTerm : jsstring)
    : result jsstring :=
  tokenizer ← build;
  match tokenizer searchTerm with
  | [] => Throw TypeError
  | token :: _ => Ok (Kuromoji.basic_form token)
  end.

(** [typeof v === 'string' && v === key] *)
Definition is_key (v : JSValue) (key : jsstring) : bool :=
  match v with
  | JStr s => jsstring_eqb s key
  | _ => false
  end.

(** The predicate of the two filters, lines 135-139 and 162-166. *)
Definition matches (key : jsstring) (entry : JSValue) : result bool :=
  e0 ← get_index entry 0;
  if is_key e0 key then Ok true
  else e1 ← get_index entry 1; Ok (is_key e1 key).

(** [xs.filter(p)] for a predicate that can throw. *)
Fixpoint filterR {A} (p : A -> result bool) (xs : list A) : result (list A) :=
  match xs with
  | [] => Ok []
  | x :: rest =>
      b ← p x;
      kept ← filterR p rest;
      Ok (if b : bool then x :: kept else kept)
  end.

(** The state of one query: the variable [basicForm] ([None] is [null]) and
    what has been observed so far. *)
Record QueryState : Type := {
  basicForm : option jsstring;
  trace : list Event;
}.

Definition emit (events : list Event) (s : QueryState) : QueryState :=
  {| basicForm := basicForm s; trace := trace s ++ events |}.

(** The body of [results.forEach((result) => ...)], lines 147-151. *)
Definition show_result (s : QueryState) (result : JSValue) : completion QueryState :=
  match get_index result 5 with
  | Throw e => Abrupt e s
  | Ok birdnest =>
      Normal (emit (List.map ConsoleLog (logContent birdnest []) ++ [ConsoleLog (lit "---")]) s)
  end.

Definition header (collectionName : jsstring) : jsstring :=
  nl :: lit "=== Results from " ++ collectionName ++ lit " ===".

(** Lines 143-151 and 170-179: the header, then every result. *)
Definition show_results (collectionName : jsstring) (results : list JSValue)
    (s : QueryState) : completion QueryState :=
  forOf show_result results (emit [ConsoleLog (header collectionName)] s).

(** [!basicForm] *)
Definition notBasicForm (b : option jsstring) : bool :=
  match b with
  | None => true
  | Some form => negb (nonEmpty form)
  end.

(** [if (!basicForm) basicForm = await getBasicForm(searchTerm)],
    lines 155-159. *)
Definition ensureBasicForm (build : result KuromojiTokenizer) (searchTerm : jsstring)
    (s : QueryState) : completion QueryState :=
  if notBasicForm (basicForm s) then
    let s' := emit [GetBasicForm searchTerm] s in
    match getBasicForm build searchTerm with
    | Throw e => Abrupt e s'
    | Ok form => Normal {| basicForm := Some form; trace := trace s' |}
    end
  else Normal s.

(** The body of the loop over the collections, lines 130-182. *)
Definition processCollection (build : result KuromojiTokenizer) (searchTerm : jsstring)
    (s : QueryState) (collection : jsstring * list JSValue) : completion QueryState :=
  let collectionName := fst collection in
  let termBank := snd collection in
  match filterR (matches searchTerm) termBank with
  | Throw e => Abrupt e s
  | Ok ((_ :: _) as results) => show_results collectionName results s
  | Ok [] =>
      match ensureBasicForm build searchTerm s with
      | Abrupt e s' => Abrupt e s'
      | Normal s' =>
          match basicForm s' with
          | None => Normal s'
          | Some form =>
              match filterR (matches form) termBank with
              | Throw e => Abrupt e s'
              | Ok ((_ :: _) as basicFormResults) =>
                  show_results collectionName basicFormResults s'
              | Ok [] => Normal s'
              end
          end
      end
  end.

Definition start_query : QueryState := {| basicForm := None; trace := [] |}.

(** The callback of [rl.question] in [processQuery], lines 126-182, for a
    search term that is not an exit command: [basicForm] starts as [null]
    and the collections are visited in the order of the map. *)
Definition processQuery (build : result KuromojiTokenizer) (dictionaryMap : DictionaryMap)
    (searchTerm : jsstring) : completion QueryState :=
  forOf (processCollection build searchTerm) dictionaryMap start_query.

End Functional.

(** ** Sample data: a library instance and a small dictionary tree *)

Module Sample.
Import JS.

Definition neko_kanji : jsstring := [29483].
Definition neko_kana : jsstring := [12397; 12371].

(** The record of the specification's scenario: the kanji and the kana of
    "cat", no tags, no rules, score 0, the definition "cat". *)
Definition neko : JSValue :=
  JArr [JStr neko_kanji; JStr neko_kana; JStr []; JStr []; JNum 0;
        JStr (lit "cat"); JNum 0; JStr []].

Definition inu : JSValue :=
  JArr [JStr [29356]; JStr [12356; 12396]; JStr (lit "n  common "); JNull; JNum 7;
        JArr [JStr (lit "dog")]].

Definition good_text : jsstring := lit "[neko]".
Definition other_text : jsstring := lit "[inu]".
Definition bad_text : jsstring := lit "[[".

(** A library whose [JSON.parse] knows the two well-formed sample texts and
    rejects every other text, and whose path functions are the simplest
    ones. *)
#[export] Instance library : Library := {|
  JSON_parse := fun text =>
    if jsstring_eqb text good_text then Some (JArr [neko])
    else if jsstring_eqb text other_text then Some (JArr [inu])
    else None;
  JSON_stringify := fun _ => lit "{}";
  String_ := fun _ => lit "null";
  path_join := fun dir name => dir ++ lit "/" ++ name;
  path_extname := fun name => lit "." ++ default [] (last (split 46 name));
|}.

Definition file (name : string) (data : jsstring) : File :=
  {| fileName := lit name; fileData := data |}.

(** One collection with a malformed file between two well-formed ones, a
    plain file, and a second collection. *)
Definition root : Root :=
  [ (lit "jmdict", Directory [file "a.json" good_text; file "b.json" bad_text;
                              file "c.json" other_text; file "notes.txt" bad_text]);
    (lit "README", NotDirectory);
    (lit "empty", Directory []) ].

Definition token (form : jsstring) : Kuromoji.Token :=
  {| Kuromoji.basic_form := form; Kuromoji.pos := lit "*";
     Kuromoji.pos_detail_1 := lit "*"; Kuromoji.pos_detail_2 := lit "*";
     Kuromoji.pos_detail_3 := lit "*"; Kuromoji.conjugated_type := lit "*";
     Kuromoji.conjugated_form := lit "*"; Kuromoji.reading := lit "*";
     Kuromoji.pronunciation := lit "*"; Kuromoji.surface_form := form |}.

(** A tokenizer that gives one token whose basic form is [form]. *)
Definition tokenizer_to (form : jsstring) : KuromojiTokenizer :=
  fun _ => [token form].

(** A tokenizer that finds no token. *)
Definition tokenizer_none : KuromojiTokenizer := fun _ => [].

(** Three collections as the functional loader keeps them: the first has
    the two sample records, the others have none. *)
Definition dictionaryMap : list (jsstring * list JSValue) :=
  [ (lit "jmdict", [neko; inu]); (lit "names", []); (lit "kanjidic", []) ].

(** A search term no sample record has as term or reading. *)
Definition hashitta : jsstring := [36208; 12387; 12383].

(** ["a\nb\n\nc"] *)
Definition abc : jsstring := lit "a" ++ [nl] ++ lit "b" ++ [nl; nl] ++ lit "c".

(** [{"content":{"content":["line1","line2"]}}] *)
Definition nested : JSValue :=
  JObj [(lit "content",
         JObj [(lit "content", JArr [JStr (lit "line1"); JStr (lit "line2")])])].

End Sample.

(** ** Notions the statements are written with *)

Module Notions.
Import JS.

(** The state a statement ends in, however it ends. *)
Definition state_of {S} (c : completion S) : S :=
  match c with
  | Normal s => s
  | Abrupt _ s => s
  end.

(** A string that does not begin with white space. *)
Definition startsClean (s : jsstring) : bool :=
  match s with
  | [] => true
  | c :: _ => negb (isWhiteSpace c)
  end.

Section OfTheFlattener.
Import Functional.

(** What [logContent] does with one item of an array. *)
Definition logItem (indent : jsstring) (item : JSValue) : list jsstring :=
  match item with
  | JStr s => logLines s indent
  | JArr _ | JObj _ => logContent item indent
  | _ => []
  end.

(** What [logContent] does with the [content] property of an object. *)
Definition logNode (indent : jsstring) (content : JSValue) : list jsstring :=
  if truthy content then
    match content with
    | JStr s => [indent ++ space :: trim s]
    | _ => logContent content (indent ++ [space; space])
    end
  else [].


End OfTheFlattener.

Section OfTheIndex.
Import Searcher.

(** The tag position of a raw record holds what the declared tuple type
    allows there: a string, or nothing (the position is absent, or holds
    [null] or another falsy value). *)
Definition tagField_ok (v : JSValue) : bool :=
  match v with
  | JStr _ => true
  | _ => negb (truthy v)
  end.

(** The tag string [rawEntry[2] || ''] of such a record. *)
Definition tagString (v : JSValue) : jsstring :=
  match v with
  | JStr s => s
  | _ => []
  end.

(** The bucket of a key: [m.get(k) || []]. *)
Definition bucket (m : gmap jsstring (list DictionaryEntry)) (k : jsstring)
    : list DictionaryEntry :=
  default [] (m !! k).

(** [key] is the string [k]. *)
Definition keyed (key : JSValue) (k : jsstring) : bool :=
  match key with
  | JStr k0 => bool_decide (k0 = k)
  | _ => false
  end.

(** The two buckets of a key in a state of the load. *)
Definition termBucket (s : Run) (k : jsstring) : list DictionaryEntry :=
  bucket (_termDictionaries (this s)) k.

Definition readingBucket (s : Run) (k : jsstring) : list DictionaryEntry :=
  bucket (_readingIndex (this s)) k.

(** The entry is in some bucket. *)
Definition stored (s : Run) (e : DictionaryEntry) : Prop :=
  exists k, In e (termBucket s k) \/ In e (readingBucket s k).

(** What loading keeps: the entries in the buckets were created before
    [created], equal identities are equal entries, a term bucket holds
    entries of that term and a reading bucket entries of that reading,
    and an entry in one bucket is in the bucket of its term and in the
    bucket of its reading. *)
Record Inv (s : Run) : Prop := {
  inv_fresh : forall e, stored s e -> (ref e < created s)%nat;
  inv_ident : forall e e', stored s e -> stored s e' -> ref e = ref e' -> e = e';
  inv_term : forall k e, In e (termBucket s k) -> term e = JStr k;
  inv_reading : forall k e, In e (readingBucket s k) -> reading e = JStr k;
  inv_both : forall e, stored s e ->
    (forall t, term e = JStr t -> In e (termBucket s t))
    /\ (forall r, reading e = JStr r -> In e (readingBucket s r));
}.

(** Buckets only get longer. *)
Definition grows (s s' : Run) : Prop :=
  forall k e,
    (In e (termBucket s k) -> In e (termBucket s' k))
    /\ (In e (readingBucket s k) -> In e (readingBucket s' k)).

(** Two states with the same searcher and the same count of entries: they
    differ in the console only. *)
Definition same_index (s t : Run) : Prop :=
  this s = this t /\ created s = created t.

(** Two completions of the same kind, with the same exception if any,
    whose states have the same index. *)
Definition alike (c c' : completion Run) : Prop :=
  match c, c' with
  | Normal s, Normal t => same_index s t
  | Abrupt e s, Abrupt e' t => e = e' /\ same_index s t
  | _, _ => False
  end.

Context {lib : Library}.

(** The report of a file that is not valid JSON. *)
Definition parse_report (dir name : jsstring) (file : File) : LogLine :=
  LogError (lit "Error parsing JSON file "
            ++ path_join (path_join dir name) (fileName file) ++ lit ":").

(** The states of a load that has not returned: the state of the
    constructor, and what the turns of the entry loop and the reports of
    malformed files make of such a state. *)
Inductive building : Run -> Prop :=
| building_start : building start_run
| building_entry s entry : building s -> building (state_of (index_entry s entry))
| building_report s text : building s -> building (console_error text s).

End OfTheIndex.

Section OfTheQuery.
Import Functional.

(** The number of calls of [getBasicForm] in a trace. *)
Definition calls (events : list Event) : nat :=
  length (List.filter (fun ev => match ev with GetBasicForm _ => true | _ => false end) events).

(** The test of the two filters as a boolean, for an entry it does not
    throw on. *)
Definition is_match (key : jsstring) (entry : JSValue) : bool :=
  match matches key entry with
  | Ok b => b
  | Throw _ => false
  end.

(** What [logContent] prints for the definitions of an entry. *)
Definition birdnest (result : JSValue) : JSValue :=
  match get_index result 5 with
  | Ok v => v
  | Throw _ => JUndefined
  end.

(** The lines of a collection that has results: the header, and for every
    result its flattened definitions and a rule. *)
Definition shown (collectionName : jsstring) (results : list JSValue) : list Event :=
  ConsoleLog (header collectionName)
  :: flat_map (fun result =>
       List.map ConsoleLog (logContent (birdnest result) []) ++ [ConsoleLog (lit "---")])
     results.

(** What the turns of the query loop keep when the lemma form, if
    [getBasicForm] gives one, is not the empty string: no call yet, or one
    call and a lemma form in [basicForm] that [!basicForm] does not take
    for missing. *)
Definition memo_ok (s : QueryState) : Prop :=
  calls (trace s) = 0%nat
  \/ (calls (trace s) = 1%nat /\ notBasicForm (basicForm s) = false).

End OfTheQuery.

End Notions.

(** ** More of [src/index.ts]: what one query prints *)

Module Display.
Import JS Searcher.

Section WithLibrary.
Context {lib : Library}.

(** [`${v}`] in a template literal *)
Definition toText (v : JSValue) : jsstring :=
  match v with
  | JStr s => s
  | _ => String_ v
  end.

(** The body of [results.forEach((entry) => ...)], lines 216-228. *)
Definition displayEntry (entry : DictionaryEntry) : list jsstring :=
  [ nl :: lit "=== Result ===";
    lit "Term: " ++ toText (term entry);
    lit "Reading: " ++ toText (reading entry);
    lit "Definitions:" ]
  ++ List.map (fun def => lit "  - " ++ def) (definitions entry)
  ++ match tags entry with
     | [] => []
     | _ :: _ => [lit "Tags: " ++ join (lit ", ") (tags entry)]
     end
  ++ [lit "---"].

(** [displayResults(results)], lines 210-229: the lines it logs. *)
Definition displayResults (results : list DictionaryEntry) : list jsstring :=
  match results with
  | [] => [lit "No results found."]
  | _ :: _ => flat_map displayEntry results
  end.

(** [this.tokenizer.tokenize(text)] as the code calls it: the tokens, or
    the exception the tokenizer throws. *)
Definition Tokenize : Type := jsstring -> result (list Kuromoji.Token).

(** [DictionaryApp.getBasicForm], lines 205-208, with the call of the
    tokenizer as it is: nothing catches what [tokenize] throws. *)
Definition getBasicForm (tokenize : Tokenize) (searchTerm : jsstring) : result jsstring :=
  tokens ← tokenize searchTerm;
  Ok (match tokens with
      | [] => searchTerm
      | token :: _ => Kuromoji.basic_form token
      end).

(** The callback of [rl.question] in [start], lines 258-267, for a search
    term that is not an exit command: the lines on the console, or the
    exception of [findTerm] or of the tokenizer, after which nothing is
    printed for the query. *)
Definition answer (searcher : DictionarySearcher) (tokenize : Tokenize)
    (searchTerm : jsstring) : result (list jsstring) :=
  found ← findTerm searcher searchTerm;
  results ← match found with
            | [] =>
                basicForm ← getBasicForm tokenize searchTerm;
                if negb (jsstring_eqb basicForm searchTerm)
                then findTerm searcher basicForm
                else Ok []
            | _ :: _ => Ok found
            end;
  Ok (displayResults results).

End WithLibrary.

End Display.

(** ** More notions for the statements *)

Module Derived.
Import JS.

(** A value whose positions can be read: not [null], not [undefined]. *)
Definition indexable (v : JSValue) : bool :=
  match v with
  | JNull | JUndefined => false
  | _ => true
  end.

(** The console events of a trace, in order. *)
Definition printed (events : list Event) : list Event :=
  List.filter (fun ev => match ev with ConsoleLog _ => true | GetBasicForm _ => false end) events.

Section OfTheQuery.
Import Functional Notions.

(** The entries of a term bank that have the key as term or reading. *)
Definition hits (key : jsstring) (termBank : list JSValue) : list JSValue :=
  List.filter (is_match key) termBank.

(** What a collection adds to the console in a query whose lemma form is
    [form]: its exact matches when it has some, else its matches of the
    lemma form when it has some, else nothing. *)
Definition collection_lines (searchTerm form : jsstring)
    (collection : jsstring * list JSValue) : list Event :=
  match hits searchTerm (snd collection) with
  | _ :: _ => shown (fst collection) (hits searchTerm (snd collection))
  | [] =>
      match hits form (snd collection) with
      | _ :: _ => shown (fst collection) (hits form (snd collection))
      | [] => []
      end
  end.

(** The collection has no exact match. *)
Definition needs_lemma (searchTerm : jsstring) (collection : jsstring * list JSValue) : bool :=
  match hits searchTerm (snd collection) with
  | [] => true
  | _ :: _ => false
  end.

End OfTheQuery.

Section OfTheLoaders.
Context {lib : Library}.

(** The tree without what the loaders do not read: the entries that are
    not directories and the files that are not [.json] files. *)
Definition prune (root : Root) : Root :=
  flat_map (fun collection =>
              match snd collection with
              | Directory files =>
                  [(fst collection, Directory (List.filter Searcher.isJsonFile files))]
              | NotDirectory => []
              end) root.

(** The directories of the tree, with all their files. *)
Definition directories (root : Root) : list (jsstring * list File) :=
  flat_map (fun collection =>
              match snd collection with
              | Directory files => [(fst collection, files)]
              | NotDirectory => []
              end) root.

(** The records of the JSON files of a directory, file after file. *)
Definition bank (files : list File) : list JSValue :=
  flat_map (fun file =>
              match JSON_parse (fileData file) with
              | Some obj => Searcher.entries_of obj
              | None => []
              end) (List.filter Functional.isJsonFile files).

End OfTheLoaders.

(** A library for which every file is a [.json] file that holds the
    sample record and [null]. *)
Definition library_with_null : Library :=
  {| JSON_parse := fun _ => Some (JArr [Sample.neko; JNull]);
     JSON_stringify := fun _ => [];
     String_ := fun _ => [];
     path_join := fun a b => a ++ b;
     path_extname := fun _ => lit ".json" |}.

(** Entries in the order they were created. *)
Fixpoint ascending (entries : list Searcher.DictionaryEntry) : Prop :=
  match entries with
  | [] => True
  | x :: rest =>
      (forall y, In y rest -> (Searcher.ref x < Searcher.ref y)%nat) /\ ascending rest
  end.

Section OfTheIndex.
Import Searcher Notions.

(** Every bucket is in the order of creation. *)
Definition ordered (s : Run) : Prop :=
  forall k, ascending (termBucket s k) /\ ascending (readingBucket s k).

(** No entry of [seen] is the object [y]. *)
Definition fresh_in (seen : list DictionaryEntry) (y : DictionaryEntry) : bool :=
  forallb (fun x => negb (Nat.eqb (ref y) (ref x))) seen.

End OfTheIndex.

(** A definition [formatDefinition] turns into text without
    [JSON.stringify] and [String]: a string, or an object whose content is
    such a definition or an array of such definitions. *)
Fixpoint plain (def : JSValue) : bool :=
  match def with
  | JStr _ => true
  | JObj props =>
      (fix content (ps : list (jsstring * JSValue)) : bool :=
         match ps with
         | [] => false
         | (k, c) :: rest =>
             if jsstring_eqb k (lit "content") then
               truthy c &&
               match c with
               | JArr items => forallb plain items
               | _ => plain c
               end
             else content rest
         end) props
  | _ => false
  end.

(** The strings at the leaves of a plain definition, from left to right;
    an empty array counts as one empty string. *)
Fixpoint texts (def : JSValue) : list jsstring :=
  match def with
  | JStr s => [s]
  | JObj props =>
      (fix content (ps : list (jsstring * JSValue)) : list jsstring :=
         match ps with
         | [] => []
         | (k, c) :: rest =>
             if jsstring_eqb k (lit "content") then
               match c with
               | JArr [] => [[]]
               | JArr items => flat_map texts items
               | _ => texts c
               end
             else content rest
         end) props
  | _ => []
  end.

End Derived.

(** * Properties *)

(** ** Strings: [trim], [split], [join] *)

Module StringFacts.
Import JS Notions.

Lemma startsClean_trimStart s : startsClean (trimStart s) = true.
Proof.
  induction s as [|c s IH]; simpl; [reflexivity|].
  destruct (isWhiteSpace c) eqn:Hc; [exact IH|].
  simpl. now rewrite Hc.
Qed.




Lemma trimEnd_nil : trimEnd [] = [].
Proof. reflexivity. Qed.






(** The last code unit of a trimmed string is not white space either. *)
Lemma trim_last s t c : trim s = t ++ [c] -> isWhiteSpace c = false.
Proof.
  unfold trim, trimEnd. intros H.
  apply (f_equal (@rev N)) in H. rewrite rev_involutive, rev_app_distr in H.
  simpl in H. pose proof (startsClean_trimStart (rev (trimStart s))) as Hs.
  rewrite H in Hs. now apply negb_true_iff in Hs.
Qed.

(** [split] never gives the empty array. *)
Lemma split_cons sep s : exists w ws, split sep s = w :: ws.
Proof.
  induction s as [|c s [w [ws IH]]]; simpl; [now eauto|].
  destruct (c =? sep); [now eauto|]. rewrite IH. eauto.
Qed.

(** Joining the pieces with the separator gives the string back. *)
Lemma join_split sep s : join [sep] (split sep s) = s.
Proof.
  induction s as [|c s IH]; [reflexivity|]. simpl.
  destruct (split_cons sep s) as [w [ws Hs]].
  destruct (N.eqb_spec c sep) as [->|Hne].
  - rewrite Hs in *. simpl. simpl in IH. now rewrite IH.
  - rewrite Hs in *. destruct ws; simpl in *; now rewrite IH.
Qed.

(** No piece holds the separator. *)
Lemma split_no_sep sep s piece : In piece (split sep s) -> ~ In sep piece.
Proof.
  revert piece. induction s as [|c s IH]; simpl; intros piece Hin.
  - destruct Hin as [<-|[]]. intros [].
  - destruct (N.eqb_spec c sep) as [->|Hne].
    + destruct Hin as [<-|Hin]; [intros []|now apply IH].
    + destruct (split sep s) as [|w ws] eqn:Hs.
      * destruct Hin as [<-|[]]. intros [->|[]]. now apply Hne.
      * destruct Hin as [<-|Hin].
        -- intros [->|Hw]; [now apply Hne|]. apply (IH w); [now left|exact Hw].
        -- apply IH. now right.
Qed.

End StringFacts.

(** ** Loops *)

Module Loops.
Import JS Notions.


(** What every turn of a loop keeps, the loop keeps, however it ends. *)
Lemma forOf_keeps {S A} (body : S -> A -> completion S) (P : S -> Prop) :
  (forall s x, P s -> P (state_of (body s x))) ->
  forall xs s, P s -> P (state_of (forOf body xs s)).
Proof.
  intros Hbody xs. induction xs as [|x rest IH]; intros s Hs; [exact Hs|].
  simpl. specialize (Hbody s x Hs). destruct (body s x) as [s1|e s1]; simpl in *.
  - now apply IH.
  - exact Hbody.
Qed.

(** A loop whose turns only go up in a preorder goes up. *)
Lemma forOf_le {S A} (body : S -> A -> completion S) (le : S -> S -> Prop) :
  (forall s, le s s) ->
  (forall s1 s2 s3, le s1 s2 -> le s2 s3 -> le s1 s3) ->
  (forall s x s', body s x = Normal s' -> le s s') ->
  forall xs s s', forOf body xs s = Normal s' -> le s s'.
Proof.
  intros Hrefl Htrans Hstep xs.
  induction xs as [|y ys IH]; simpl; intros t t' H.
  - injection H as <-. apply Hrefl.
  - destruct (body t y) as [t1|e t1] eqn:Hb; [|discriminate].
    eapply Htrans; [eapply Hstep, Hb|now apply IH].
Qed.

(** In a loop that ends normally every element had its turn, and what a
    turn did lasts when the turns only go up in a preorder. *)
Lemma forOf_turn {S A} (body : S -> A -> completion S) (le : S -> S -> Prop) :
  (forall s, le s s) ->
  (forall s1 s2 s3, le s1 s2 -> le s2 s3 -> le s1 s3) ->
  (forall s x s', body s x = Normal s' -> le s s') ->
  forall xs s s' x, forOf body xs s = Normal s' -> In x xs ->
  exists s1 s2, le s s1 /\ body s1 x = Normal s2 /\ le s2 s'.
Proof.
  intros Hrefl Htrans Hstep xs.
  pose proof (forOf_le body le Hrefl Htrans Hstep) as Hle.
  induction xs as [|y rest IH]; simpl; intros s s' x Hrun Hin; [destruct Hin|].
  destruct (body s y) as [s1|e s1] eqn:Hb; [|discriminate].
  destruct Hin as [->|Hin].
  - exists s, s1. split; [apply Hrefl|]. split; [exact Hb|now apply Hle in Hrun].
  - destruct (IH s1 s' x Hrun Hin) as [t1 [t2 [H1 [H2 H3]]]].
    exists t1, t2. split; [|now split]. eapply Htrans; [eapply Hstep, Hb|exact H1].
Qed.

Lemma forOf_app {S A} (body : S -> A -> completion S) xs ys s :
  forOf body (xs ++ ys) s =
    match forOf body xs s with
    | Normal s' => forOf body ys s'
    | Abrupt e s' => Abrupt e s'
    end.
Proof.
  revert s. induction xs as [|x rest IH]; intros s; [reflexivity|].
  simpl. destruct (body s x); [apply IH|reflexivity].
Qed.

(** A loop keeps [P] while it runs and ends in [Q] when every turn that
    starts in [P] ends normally in [P] or abruptly in [Q]. *)
Lemma forOf_ends {S A} (body : S -> A -> completion S) (P Q : S -> Prop) :
  (forall s x, P s ->
     match body s x with Normal s' => P s' | Abrupt _ s' => Q s' end) ->
  forall xs s, P s ->
    match forOf body xs s with Normal s' => P s' | Abrupt _ s' => Q s' end.
Proof.
  intros Hbody xs. induction xs as [|x rest IH]; intros s Hs; [exact Hs|].
  simpl. specialize (Hbody s x Hs). destruct (body s x) as [s1|e s1].
  - now apply IH.
  - exact Hbody.
Qed.

End Loops.

(** ** Induction on values *)

Section ValueInduction.
Import JS.
Variable P : JSValue -> Prop.
Hypothesis P_undefined : P JUndefined.
Hypothesis P_null : P JNull.
Hypothesis P_bool : forall b, P (JBool b).
Hypothesis P_num : forall z, P (JNum z).
Hypothesis P_str : forall s, P (JStr s).
Hypothesis P_arr : forall items, (forall item, In item items -> P item) -> P (JArr items).
Hypothesis P_obj : forall props, (forall k v, In (k, v) props -> P v) -> P (JObj props).

Fixpoint JSValue_induction (v : JSValue) : P v.
Proof.
  destruct v as [| |b|z|s|items|props].
  - exact P_undefined.
  - exact P_null.
  - exact (P_bool b).
  - exact (P_num z).
  - exact (P_str s).
  - apply P_arr. induction items as [|x xs IH]; intros item Hin.
    + destruct Hin.
    + destruct Hin as [<-|Hin]; [apply JSValue_induction|exact (IH item Hin)].
  - apply P_obj. induction props as [|[k0 v0] ps IH]; intros k v Hin.
    + destruct Hin.
    + destruct Hin as [Heq|Hin]; [|exact (IH k v Hin)].
      injection Heq as _ <-. apply JSValue_induction.
Qed.

End ValueInduction.

(** ** The content flattener *)

Module Flattener.
Import JS Functional Notions StringFacts.

Lemma logContent_array items indent :
  logContent (JArr items) indent = flat_map (logItem indent) items.
Proof.
  simpl. induction items as [|item rest IH]; [reflexivity|].
  simpl flat_map. rewrite <- IH. reflexivity.
Qed.

Lemma logContent_object props indent :
  logContent (JObj props) indent = logNode indent (get_prop (lit "content") props).
Proof.
  simpl. induction props as [|[k c] rest IH]; [reflexivity|].
  simpl get_prop. destruct (jsstring_eqb k (lit "content")); [reflexivity|exact IH].
Qed.

(** [src/index.js] and part_001 print the same lines. *)
Lemma logContent_js_same data : forall indent, logContent_js data indent = logContent data indent.
Proof.
  induction data as [| |b|z|s|items IH|props IH] using JSValue_induction;
    intros indent; try reflexivity.
  - simpl. induction items as [|item rest IHrest]; [reflexivity|].
    rewrite IHrest by (intros; apply IH; now right).
    f_equal. destruct item; try reflexivity; apply IH; now left.
  - simpl. induction props as [|[k c] rest IHrest]; [reflexivity|].
    rewrite IHrest by (intros k' v' Hin; apply (IH k' v'); now right).
    destruct (jsstring_eqb k (lit "content")); [|reflexivity].
    destruct (truthy c); [|reflexivity].
    destruct c; try reflexivity; apply (IH k); now left.
Qed.

(** The lines of a string are the lines of [split] that are not blank, in
    order, each one trimmed and put after the indent and one space. *)
Lemma logLines_spec s indent line :
  In line (logLines s indent) <->
  exists raw, In raw (split nl s) /\ trim raw <> [] /\ line = indent ++ space :: trim raw.
Proof.
  unfold logLines. rewrite in_map_iff. split.
  - intros [raw [<- Hin]]. apply filter_In in Hin as [Hin Hne].
    exists raw. repeat split; [exact Hin|]. now destruct (trim raw).
  - intros [raw [Hin [Hne ->]]]. exists raw. split; [reflexivity|].
    apply filter_In. split; [exact Hin|]. now destruct (trim raw).
Qed.







(** C7, as the specification words it, fails: the three lines of the text
    a, b, blank, c are not the bare strings a, b and c, each one has the
    separating space in front. *)
Lemma C7_counterexample :
  logContent (JStr Sample.abc) [] <> [lit "a"; lit "b"; lit "c"]
  /\ logContent (JStr Sample.abc) [] <>
     List.map (fun raw => [] ++ trim raw)
       (List.filter (fun raw => nonEmpty (trim raw)) (split nl Sample.abc)).
Proof. split; vm_compute; discriminate. Qed.

(** C7, amended. Flattening a string splits it on newline (the pieces hold
    no newline and joined by newlines they are the string), drops the
    pieces that are empty after trimming, and prints every other piece, in
    order, as the indent, one space, and the piece trimmed; the text a, b,
    blank, c at the empty indent gives the three lines " a", " b", " c". *)
Theorem C7_text_lines (s indent : jsstring) :
  logContent (JStr s) indent =
    List.map (fun raw => indent ++ space :: trim raw)
      (List.filter (fun raw => nonEmpty (trim raw)) (split nl s))
  /\ join [nl] (split nl s) = s
  /\ (forall raw, In raw (split nl s) -> ~ In nl raw)
  /\ (forall line, In line (logContent (JStr s) indent) <->
        exists raw, In raw (split nl s) /\ trim raw <> [] /\ line = indent ++ space :: trim raw)
  /\ logContent_js (JStr s) indent = logContent (JStr s) indent
  /\ logContent (JStr Sample.abc) [] = [lit " a"; lit " b"; lit " c"].
Proof.
  refine (conj eq_refl (conj _ (conj _ (conj _ (conj _ _))))).
  - apply join_split.
  - apply split_no_sep.
  - intros line. apply logLines_spec.
  - apply logContent_js_same.
  - vm_compute. reflexivity.
Qed.

Lemma C7_witness :
  In (lit "b") (split nl Sample.abc) /\ ~ In nl (lit "b").
Proof.
  assert (H : In (lit "b") (split nl Sample.abc)) by (vm_compute; tauto).
  split; [exact H|].
  exact (proj1 (proj2 (proj2 (C7_text_lines Sample.abc []))) (lit "b") H).
Defined.

(** C8. For an object, with [content] its [content] property: a string
    that is not empty is printed on one line at the indent of the call;
    an array or an object is flattened with exactly two more spaces of
    indent; a content that is absent or falsy prints nothing. So the
    object that wraps an object that wraps the array of line1 and line2
    prints the two lines at one indent, four spaces deeper than the
    call's. *)
Theorem C8_node_content (props : list (jsstring * JSValue)) (indent : jsstring) :
  let content := get_prop (lit "content") props in
  (forall s, content = JStr s -> s <> [] ->
     logContent (JObj props) indent = [indent ++ space :: trim s])
  /\ (forall items, content = JArr items ->
       logContent (JObj props) indent = logContent (JArr items) (indent ++ [space; space]))
  /\ (forall inner, content = JObj inner ->
       logContent (JObj props) indent = logContent (JObj inner) (indent ++ [space; space]))
  /\ (truthy content = false -> logContent (JObj props) indent = [])
  /\ logContent_js (JObj props) indent = logContent (JObj props) indent
  /\ logContent Sample.nested indent =
       [ (indent ++ repeat space 4) ++ space :: lit "line1";
         (indent ++ repeat space 4) ++ space :: lit "line2" ].
Proof.
  intros content. subst content. rewrite logContent_object. unfold logNode.
  repeat split.
  - intros s -> Hs. destruct s; [contradiction|reflexivity].
  - now intros items ->.
  - now intros inner ->.
  - now intros ->.
  - now rewrite logContent_js_same, logContent_object.
  - unfold Sample.nested. rewrite !logContent_object. simpl get_prop.
    unfold logNode. simpl truthy. cbv iota. rewrite logContent_object.
    simpl get_prop. unfold logNode. simpl truthy. cbv iota.
    rewrite logContent_array. simpl flat_map. unfold logLines.
    rewrite <- !app_assoc. reflexivity.
Qed.

Lemma C8_witness :
  logContent (JObj [(lit "tag", JStr (lit "li")); (lit "content", JStr (lit " cat "))]) (lit "  ")
    = [lit "   cat"]
  /\ logContent (JObj [(lit "content", JArr [JStr (lit "x")])]) []
      = logContent (JArr [JStr (lit "x")]) (lit "  ")
  /\ logContent (JObj [(lit "content", Sample.nested)]) []
      = logContent Sample.nested (lit "  ")
  /\ logContent (JObj [(lit "content", JStr [])]) [] = []
  /\ logContent (JObj [(lit "tag", JStr (lit "br"))]) [] = [].
Proof.
  refine (conj _ (conj _ (conj _ (conj _ _)))).
  - apply (proj1 (C8_node_content
             [(lit "tag", JStr (lit "li")); (lit "content", JStr (lit " cat "))] (lit "  ")) (lit " cat "));
      [reflexivity|discriminate].
  - apply (proj1 (proj2 (C8_node_content [(lit "content", JArr [JStr (lit "x")])] []))
             [JStr (lit "x")]). reflexivity.
  - apply (proj1 (proj2 (proj2 (C8_node_content [(lit "content", Sample.nested)] [])))
             [(lit "content", JObj [(lit "content", JArr [JStr (lit "line1"); JStr (lit "line2")])])]).
    reflexivity.
  - apply (proj1 (proj2 (proj2 (proj2 (C8_node_content [(lit "content", JStr [])] []))))).
    reflexivity.
  - apply (proj1 (proj2 (proj2 (proj2 (C8_node_content [(lit "tag", JStr (lit "br"))] []))))).
    reflexivity.
Defined.

End Flattener.

(** ** The entry normalizer of [src/index.ts] *)

Module Normalizer.
Import JS Searcher Notions StringFacts.

Lemma formatTags_ok v :
  tagField_ok v = true ->
  formatTags v = Ok (List.filter nonEmpty (split space (tagString v))).
Proof.
  unfold formatTags, js_or. destruct v as [| |b|z|s|items|props]; simpl; try reflexivity;
    try discriminate.
  - destruct b; [discriminate|reflexivity].
  - destruct (z =? 0)%Z; [reflexivity|discriminate].
  - destruct s; reflexivity.
Qed.





End Normalizer.

(** ** The index of [src/index.ts]: loading and lookup *)

Module Index.
Import JS Searcher Notions Loops.

Lemma keyed_spec key k : keyed key k = true <-> key = JStr k.
Proof.
  destruct key; simpl; try (split; [discriminate|intros H; discriminate H]).
  rewrite bool_decide_eq_true. split; [now intros ->|now intros [= ->]].
Qed.

(** Indexing an entry under a key appends it to the bucket of that key and
    leaves every other bucket as it is. *)
Lemma bucket_index_under key e m k :
  bucket (index_under key e m) k = bucket m k ++ (if keyed key k then [e] else []).
Proof.
  unfold bucket.
  destruct key as [| |b|z|k0|items|props]; simpl; try (now rewrite app_nil_r).
  destruct (decide (k0 = k)) as [->|Hk].
  - rewrite (bool_decide_eq_true_2 (k = k) eq_refl). case_bool_decide as Hsome.
    + rewrite lookup_alter_eq. destruct Hsome as [b Hb]. now rewrite Hb.
    + rewrite lookup_alter_eq, lookup_insert_eq.
      assert (m !! k = None) as -> by (destruct (m !! k); [exfalso; eauto|reflexivity]).
      reflexivity.
  - rewrite (bool_decide_eq_false_2 (k0 = k) Hk), app_nil_r.
    rewrite lookup_alter_ne by assumption.
    case_bool_decide; [reflexivity|]. now rewrite lookup_insert_ne.
Qed.

(** *** [uniqueObjects] *)

Lemma uniqueObjects_incl xs x : In x (uniqueObjects xs) -> In x xs.
Proof.
  induction xs as [|y rest IH]; simpl; [tauto|].
  intros [->|Hin]; [now left|]. apply filter_In in Hin as [Hin _]. right. now apply IH.
Qed.

Lemma uniqueObjects_NoDup xs : List.NoDup (List.map ref (uniqueObjects xs)).
Proof.
  induction xs as [|y rest IH]; simpl; [constructor|].
  constructor.
  - rewrite in_map_iff. intros [z [Hz Hin]]. apply filter_In in Hin as [_ Hne].
    rewrite Hz, Nat.eqb_refl in Hne. discriminate.
  - clear -IH. induction (uniqueObjects rest) as [|z zs IHz]; simpl; [constructor|].
    inversion IH as [|? ? Hnin Hnd]; subst.
    destruct (negb (ref z =? ref y)%nat); [|now apply IHz].
    simpl. constructor; [|now apply IHz].
    rewrite in_map_iff. intros [w [Hw Hin]]. apply filter_In in Hin as [Hin _].
    apply Hnin. rewrite in_map_iff. now exists w.
Qed.

(** Every object of the list is there, through the first entry that has its
    identity. *)
Lemma uniqueObjects_complete xs x :
  In x xs -> exists y, In y (uniqueObjects xs) /\ ref y = ref x.
Proof.
  induction xs as [|z rest IH]; simpl; [tauto|].
  intros [->|Hin]; [exists x; split; [now left|reflexivity]|].
  destruct (IH Hin) as [y [Hy Hr]].
  destruct (Nat.eq_dec (ref y) (ref z)) as [Heq|Hne].
  - exists z. split; [now left|congruence].
  - exists y. split; [|exact Hr]. right. apply filter_In. split; [exact Hy|].
    apply negb_true_iff, Nat.eqb_neq, Hne.
Qed.

(** The order of first occurrences is kept, and a list without repeated
    objects is left as it is. *)
Lemma uniqueObjects_id xs : List.NoDup (List.map ref xs) -> uniqueObjects xs = xs.
Proof.
  induction xs as [|z rest IH]; simpl; [reflexivity|].
  intros Hnd. inversion Hnd as [|? ? Hnin Hnd']; subst.
  rewrite (IH Hnd'). f_equal.
  clear -Hnin. induction rest as [|w ws IHw]; simpl; [reflexivity|].
  simpl in Hnin. destruct (Nat.eqb_spec (ref w) (ref z)) as [Heq|Hne]; simpl.
  - exfalso. apply Hnin. now left.
  - f_equal. apply IHw. intros H. apply Hnin. now right.
Qed.

Lemma grows_refl s : grows s s.
Proof. intros k e. tauto. Qed.

Lemma grows_trans s1 s2 s3 : grows s1 s2 -> grows s2 s3 -> grows s1 s3.
Proof. intros H1 H2 k e. specialize (H1 k e). specialize (H2 k e). tauto. Qed.

Lemma Inv_start : Inv start_run.
Proof.
  assert (Hno : forall e, ~ stored start_run e).
  { intros e [k [H|H]]; unfold termBucket, readingBucket, bucket in H; simpl in H;
      rewrite lookup_empty in H; exact H. }
  split; intros.
  - exfalso. eapply Hno. eassumption.
  - exfalso. eapply Hno. eassumption.
  - unfold termBucket, bucket in H. simpl in H. rewrite lookup_empty in H. destruct H.
  - unfold readingBucket, bucket in H. simpl in H. rewrite lookup_empty in H. destruct H.
  - exfalso. eapply Hno. eassumption.
Qed.

Section Loading.
Context {lib : Library}.

Lemma formatEntry_fields rawEntry r e :
  _formatEntry rawEntry r = Ok e ->
  ref e = r /\ get_index rawEntry 0 = Ok (term e) /\ get_index rawEntry 1 = Ok (reading e).
Proof.
  unfold _formatEntry.
  destruct (get_index rawEntry 5) as [e5|] eqn:H5; [|discriminate].
  destruct (get_index rawEntry 0) as [e0|]; [|discriminate].
  destruct (get_index rawEntry 1) as [e1|]; [|discriminate].
  destruct (get_index rawEntry 2) as [e2|]; [|discriminate].
  cbn [mbind result_bind].
  destruct (formatTags e2) as [tgs|]; [|discriminate].
  destruct (get_index rawEntry 3) as [e3|]; [|discriminate].
  destruct (get_index rawEntry 4) as [e4|]; [|discriminate].
  destruct (get_index rawEntry 6) as [e6|]; [|discriminate].
  destruct (get_index rawEntry 7) as [e7|]; [|discriminate].
  cbn [mbind result_bind]. intros [= <-]. simpl. auto.
Qed.

(** One turn of the entry loop: the new entry goes to the end of the term
    bucket of its term and of the reading bucket of its reading, and
    nothing else changes but the count of entries. *)
Lemma index_entry_normal s entry s' :
  index_entry s entry = Normal s' ->
  exists e,
    _formatEntry entry (created s) = Ok e
    /\ created s' = S (created s)
    /\ console s' = console s
    /\ _isReady (this s') = _isReady (this s)
    /\ (forall k, termBucket s' k = termBucket s k ++ (if keyed (term e) k then [e] else []))
    /\ (forall k, readingBucket s' k =
                    readingBucket s k ++ (if keyed (reading e) k then [e] else [])).
Proof.
  unfold index_entry. destruct (_formatEntry entry (created s)) as [e|] eqn:He; [|discriminate].
  intros [= <-]. exists e. repeat split; intros k; apply bucket_index_under.
Qed.

Lemma index_entry_abrupt s entry e s' : index_entry s entry = Abrupt e s' -> s' = s.
Proof.
  unfold index_entry. destruct (_formatEntry entry (created s)); [discriminate|].
  now intros [= _ <-].
Qed.

Lemma index_entry_grows s entry s' : index_entry s entry = Normal s' -> grows s s'.
Proof.
  intros H. destruct (index_entry_normal _ _ _ H) as [e [_ [_ [_ [_ [HT HR]]]]]].
  intros k e'. rewrite HT, HR, !in_app_iff. tauto.
Qed.

Lemma index_entry_Inv s entry : Inv s -> Inv (state_of (index_entry s entry)).
Proof.
  intros HI. destruct (index_entry s entry) as [s'|x s'] eqn:Hrun; simpl.
  2:{ now rewrite (index_entry_abrupt _ _ _ _ Hrun). }
  destruct (index_entry_normal _ _ _ Hrun) as [e [He [Hc [_ [_ [HT HR]]]]]].
  destruct (formatEntry_fields _ _ _ He) as [Href _].
  assert (Hst : forall x, stored s' x -> stored s x \/ x = e).
  { intros x [k [H|H]]; [rewrite HT in H|rewrite HR in H];
      apply in_app_iff in H as [H|H].
    - left. exists k. now left.
    - right. destruct (keyed _ k); [destruct H as [<-|[]]; reflexivity|destruct H].
    - left. exists k. now right.
    - right. destruct (keyed _ k); [destruct H as [<-|[]]; reflexivity|destruct H]. }
  split.
  - intros x Hx. rewrite Hc. destruct (Hst x Hx) as [Hold| ->].
    + apply inv_fresh in Hold; [lia|exact HI].
    + lia.
  - intros x y Hx Hy Hxy.
    destruct (Hst x Hx) as [Hox| ->], (Hst y Hy) as [Hoy| ->]; try reflexivity.
    + now apply (inv_ident s HI).
    + apply (inv_fresh s HI) in Hox. lia.
    + apply (inv_fresh s HI) in Hoy. lia.
  - intros k x Hx. rewrite HT in Hx. apply in_app_iff in Hx as [Hx|Hx].
    + now apply (inv_term s HI).
    + destruct (keyed (term e) k) eqn:Hk; [|destruct Hx].
      destruct Hx as [<-|[]]. now apply keyed_spec.
  - intros k x Hx. rewrite HR in Hx. apply in_app_iff in Hx as [Hx|Hx].
    + now apply (inv_reading s HI).
    + destruct (keyed (reading e) k) eqn:Hk; [|destruct Hx].
      destruct Hx as [<-|[]]. now apply keyed_spec.
  - intros x Hx. destruct (Hst x Hx) as [Hold| ->].
    + destruct (inv_both s HI x Hold) as [H1 H2]. split.
      * intros t Ht. rewrite HT. apply in_app_iff. left. now apply H1.
      * intros r Hr. rewrite HR. apply in_app_iff. left. now apply H2.
    + split.
      * intros t Ht. rewrite HT. apply in_app_iff. right.
        apply keyed_spec in Ht. rewrite Ht. now left.
      * intros r Hr. rewrite HR. apply in_app_iff. right.
        apply keyed_spec in Hr. rewrite Hr. now left.
Qed.

Lemma load_file_Inv path s file : Inv s -> Inv (state_of (load_file path s file)).
Proof.
  intros HI. unfold load_file. destruct (JSON_parse (fileData file)) as [parsed|].
  - apply (forOf_keeps index_entry Inv); [intros; now apply index_entry_Inv|exact HI].
  - simpl. destruct HI. split; assumption.
Qed.

Lemma load_collection_Inv dir s collection :
  Inv s -> Inv (state_of (load_collection dir s collection)).
Proof.
  intros HI. unfold load_collection. destruct (snd collection) as [files|]; [|exact HI].
  apply (forOf_keeps (load_file _) Inv); [intros; now apply load_file_Inv|exact HI].
Qed.

Lemma load_file_grows path s file s' : load_file path s file = Normal s' -> grows s s'.
Proof.
  unfold load_file. destruct (JSON_parse (fileData file)) as [parsed|].
  - apply (forOf_le index_entry grows grows_refl grows_trans index_entry_grows).
  - intros [= <-]. intros k e. tauto.
Qed.

Lemma load_collection_grows dir s collection s' :
  load_collection dir s collection = Normal s' -> grows s s'.
Proof.
  unfold load_collection. destruct (snd collection) as [files|].
  - apply (forOf_le (load_file _) grows grows_refl grows_trans (load_file_grows _)).
  - intros [= <-]. apply grows_refl.
Qed.

(** Every record of every well-formed JSON file of every collection
    directory got its turn in a load that ended normally, and the entry
    made from it is still in the buckets at the end. *)
Lemma loaded_entry dir root s0 sF name files file parsed raw :
  forOf (load_collection dir) root s0 = Normal sF ->
  In (name, Directory files) root -> In file files -> isJsonFile file = true ->
  JSON_parse (fileData file) = Some parsed -> In raw (entries_of parsed) ->
  exists r e,
    _formatEntry raw r = Ok e
    /\ (forall t, term e = JStr t -> In e (termBucket sF t))
    /\ (forall t, reading e = JStr t -> In e (readingBucket sF t)).
Proof.
  intros Hrun Hcoll Hfile Hjson Hparse Hraw.
  destruct (forOf_turn (load_collection dir) grows grows_refl grows_trans
              (load_collection_grows dir) root s0 sF _ Hrun Hcoll)
    as [s1 [s2 [_ [Hc Hg2]]]].
  unfold load_collection in Hc. simpl in Hc.
  assert (Hin : In file (List.filter isJsonFile files)) by (apply filter_In; now split).
  destruct (forOf_turn (load_file _) grows grows_refl grows_trans
              (load_file_grows _) _ s1 s2 _ Hc Hin)
    as [s3 [s4 [_ [Hf Hg4]]]].
  unfold load_file in Hf. rewrite Hparse in Hf.
  destruct (forOf_turn index_entry grows grows_refl grows_trans index_entry_grows
              _ s3 s4 _ Hf Hraw)
    as [s5 [s6 [_ [He Hg6]]]].
  destruct (index_entry_normal _ _ _ He) as [e [Hfmt [_ [_ [_ [HT HR]]]]]].
  exists (created s5), e. split; [exact Hfmt|].
  assert (Hg : grows s6 sF) by (eapply grows_trans; [exact Hg6|];
                                eapply grows_trans; [exact Hg4|exact Hg2]).
  split; intros t Ht; apply keyed_spec in Ht.
  - apply (Hg t e). rewrite HT, Ht. apply in_app_iff. right. now left.
  - apply (Hg t e). rewrite HR, Ht. apply in_app_iff. right. now left.
Qed.

Lemma load_collections_Inv dir root s :
  Inv s -> Inv (state_of (forOf (load_collection dir) root s)).
Proof.
  apply (forOf_keeps (load_collection dir) Inv). intros. now apply load_collection_Inv.
Qed.

(** *** Lookup on a loaded index *)

Lemma findTerm_ready (searcher : DictionarySearcher) searchTerm :
  _isReady searcher = true ->
  findTerm searcher searchTerm =
    Ok (uniqueObjects (bucket (_termDictionaries searcher) searchTerm
                       ++ bucket (_readingIndex searcher) searchTerm)).
Proof. unfold findTerm. now intros ->. Qed.

Lemma loaded_normal dir root s :
  loadDictionaries dir root start_run = Normal s ->
  exists s', forOf (load_collection dir) root start_run = Normal s'
             /\ s = set_ready s' /\ Inv s'.
Proof.
  unfold loadDictionaries. pose proof (load_collections_Inv dir root start_run Inv_start) as HI.
  destruct (forOf (load_collection dir) root start_run) as [s'|e s']; [|discriminate].
  intros [= <-]. now exists s'.
Qed.

(** C1. On the index that [loadDictionaries] leaves when it returns,
    [findTerm] throws for no key and returns the term bucket of the key
    followed by the reading bucket of the key, each object once: an entry is
    in the result exactly when it is in one of the two buckets, no two
    entries of the result are the same object, every entry of the result
    has the key as its term or as its reading, and the result is empty
    when the key has neither bucket. Every record of every well-formed JSON file
    of every collection directory is found under its term and under its
    reading, when these are strings. *)
Theorem C1_findTerm_is_union_of_buckets dir root s :
  loadDictionaries dir root start_run = Normal s ->
  (forall searchTerm,
     exists found,
       findTerm (this s) searchTerm = Ok found
       /\ found = uniqueObjects (termBucket s searchTerm ++ readingBucket s searchTerm)
       /\ (forall e, In e found <->
                     In e (termBucket s searchTerm) \/ In e (readingBucket s searchTerm))
       /\ List.NoDup (List.map ref found)
       /\ (forall e, In e found ->
             term e = JStr searchTerm \/ reading e = JStr searchTerm)
       /\ (_termDictionaries (this s) !! searchTerm = None ->
           _readingIndex (this s) !! searchTerm = None -> found = []))
  /\ (forall name files file parsed raw,
        In (name, Directory files) root -> In file files -> isJsonFile file = true ->
        JSON_parse (fileData file) = Some parsed -> In raw (entries_of parsed) ->
        exists r e,
          _formatEntry raw r = Ok e
          /\ (forall key, term e = JStr key \/ reading e = JStr key ->
                exists found, findTerm (this s) key = Ok found /\ In e found)).
Proof.
  intros Hload. destruct (loaded_normal _ _ _ Hload) as [s' [Hrun [-> HI]]].
  assert (Hmem : forall searchTerm e,
            In e (uniqueObjects (termBucket s' searchTerm ++ readingBucket s' searchTerm)) <->
            In e (termBucket s' searchTerm) \/ In e (readingBucket s' searchTerm)).
  { intros searchTerm e. split.
    - intros H. apply uniqueObjects_incl in H. now apply in_app_iff in H.
    - intros H. assert (Hin : In e (termBucket s' searchTerm ++ readingBucket s' searchTerm))
        by now apply in_app_iff.
      destruct (uniqueObjects_complete _ _ Hin) as [y [Hy Hr]].
      assert (y = e) as <-; [|exact Hy].
      apply (inv_ident s' HI); [| |exact Hr].
      + apply uniqueObjects_incl, in_app_iff in Hy. now exists searchTerm.
      + now exists searchTerm. }
  split.
  - intros searchTerm. eexists. split; [now apply findTerm_ready|].
    split; [reflexivity|]. split; [apply Hmem|].
    split; [apply uniqueObjects_NoDup|]. split.
    + intros e He. apply Hmem in He as [He|He].
      * left. exact (inv_term s' HI _ _ He).
      * right. exact (inv_reading s' HI _ _ He).
    + simpl. unfold termBucket, readingBucket, bucket. simpl. now intros -> ->.
  - intros name files file parsed raw Hcoll Hfile Hjson Hparse Hraw.
    destruct (loaded_entry _ _ _ _ _ _ _ _ _ Hrun Hcoll Hfile Hjson Hparse Hraw)
      as [r [e [Hfmt [HT HR]]]].
    exists r, e. split; [exact Hfmt|].
    intros key Hkey. eexists. split; [now apply findTerm_ready|].
    apply (Hmem key e). destruct Hkey as [Hk|Hk]; [left; now apply HT|right; now apply HR].
Qed.

(** *** A malformed file *)

Lemma forOf_alike {A} (body : Run -> A -> completion Run) :
  (forall s t x, same_index s t -> alike (body s x) (body t x)) ->
  forall xs s t, same_index s t -> alike (forOf body xs s) (forOf body xs t).
Proof.
  intros Hbody xs. induction xs as [|x rest IH]; intros s t Hst; [exact Hst|].
  simpl. specialize (Hbody s t x Hst).
  destruct (body s x), (body t x); simpl in Hbody; try contradiction.
  - now apply IH.
  - exact Hbody.
Qed.

Lemma index_entry_alike s t entry :
  same_index s t -> alike (index_entry s entry) (index_entry t entry).
Proof.
  intros [Hthis Hcreated]. unfold index_entry. rewrite Hthis, Hcreated.
  destruct (_formatEntry entry (created t)); simpl; [now split|].
  split; [reflexivity|now split].
Qed.

Lemma load_file_alike path s t file :
  same_index s t -> alike (load_file path s file) (load_file path t file).
Proof.
  intros Hst. unfold load_file. destruct (JSON_parse (fileData file)).
  - apply forOf_alike; [apply index_entry_alike|exact Hst].
  - exact Hst.
Qed.

Lemma load_collection_alike dir s t collection :
  same_index s t -> alike (load_collection dir s collection) (load_collection dir t collection).
Proof.
  intros Hst. unfold load_collection. destruct (snd collection); [|exact Hst].
  apply forOf_alike; [apply load_file_alike|exact Hst].
Qed.

(** What is on the console stays there. *)
Lemma console_kept_entry line s entry :
  In line (console s) -> In line (console (state_of (index_entry s entry))).
Proof.
  intros Hin. destruct (index_entry s entry) as [s'|e s'] eqn:Hrun; simpl.
  - destruct (index_entry_normal _ _ _ Hrun) as [_ [_ [_ [Hc _]]]]. now rewrite Hc.
  - now rewrite (index_entry_abrupt _ _ _ _ Hrun).
Qed.

Lemma console_kept_file line path s file :
  In line (console s) -> In line (console (state_of (load_file path s file))).
Proof.
  intros Hin. unfold load_file. destruct (JSON_parse (fileData file)).
  - apply (forOf_keeps index_entry (fun s => In line (console s)));
      [intros; now apply console_kept_entry|exact Hin].
  - simpl. apply in_app_iff. now left.
Qed.

Lemma console_kept_collection line dir s collection :
  In line (console s) -> In line (console (state_of (load_collection dir s collection))).
Proof.
  intros Hin. unfold load_collection. destruct (snd collection); [|exact Hin].
  apply (forOf_keeps (load_file _) (fun s => In line (console s)));
    [intros; now apply console_kept_file|exact Hin].
Qed.

(** The collection loop over a directory with a malformed JSON file, and
    over the same directory without that file. *)
Lemma skip_in_collection dir s name pre bad post :
  isJsonFile bad = true -> JSON_parse (fileData bad) = None ->
  alike (load_collection dir s (name, Directory (pre ++ bad :: post)))
        (load_collection dir s (name, Directory (pre ++ post)))
  /\ (forall s', forOf (load_file (path_join dir name)) (List.filter isJsonFile pre) s = Normal s' ->
        In (parse_report dir name bad)
           (console (state_of (load_collection dir s (name, Directory (pre ++ bad :: post)))))).
Proof.
  intros Hjson Hparse. unfold load_collection. simpl fst. simpl snd. cbv iota.
  rewrite !List.filter_app. simpl List.filter. rewrite Hjson.
  rewrite !forOf_app.
  destruct (forOf (load_file (path_join dir name)) (List.filter isJsonFile pre) s)
    as [s1|e s1] eqn:Hpre.
  - simpl forOf.
    assert (Hbad : load_file (path_join dir name) s1 bad
                   = Normal (console_error (lit "Error parsing JSON file "
                       ++ path_join (path_join dir name) (fileName bad) ++ lit ":") s1))
      by (unfold load_file; now rewrite Hparse).
    rewrite Hbad. split.
    + apply forOf_alike; [apply load_file_alike|]. now split.
    + intros s' _.
      apply (forOf_keeps (load_file _) (fun s => In (parse_report dir name bad) (console s)));
        [intros; now apply console_kept_file|].
      simpl. apply in_app_iff. right. now left.
  - split; [|discriminate]. simpl. split; [reflexivity|now split].
Qed.

(** In [src/index.ts] a file that is not valid JSON is reported with its
    path and skipped: the load ends as it ends without the file, with the
    same index, and the report is on the console when the load came to the
    file. *)
Lemma skip_malformed_file dir root1 name pre bad post root2 s0 :
  isJsonFile bad = true -> JSON_parse (fileData bad) = None ->
  alike (loadDictionaries dir (root1 ++ (name, Directory (pre ++ bad :: post)) :: root2) s0)
        (loadDictionaries dir (root1 ++ (name, Directory (pre ++ post)) :: root2) s0)
  /\ (forall s1 s2,
        forOf (load_collection dir) root1 s0 = Normal s1 ->
        forOf (load_file (path_join dir name)) (List.filter isJsonFile pre) s1 = Normal s2 ->
        In (parse_report dir name bad)
           (console (state_of (loadDictionaries dir
              (root1 ++ (name, Directory (pre ++ bad :: post)) :: root2) s0)))).
Proof.
  intros Hjson Hparse. unfold loadDictionaries. rewrite !forOf_app.
  destruct (forOf (load_collection dir) root1 s0) as [s1|e s1] eqn:H1.
  - simpl forOf.
    destruct (skip_in_collection dir s1 name pre bad post Hjson Hparse) as [Halike Hreport].
    destruct (load_collection dir s1 (name, Directory (pre ++ bad :: post))) as [sb|eb sb] eqn:Hb,
             (load_collection dir s1 (name, Directory (pre ++ post))) as [sg|eg sg] eqn:Hg;
      simpl in Halike; try contradiction.
    + pose proof (forOf_alike (load_collection dir) (load_collection_alike dir) root2 sb sg Halike)
        as Hrest.
      split.
      * destruct (forOf (load_collection dir) root2 sb), (forOf (load_collection dir) root2 sg);
          simpl in Hrest; try contradiction; simpl.
        -- destruct Hrest as [Ha Hc]. split; simpl; congruence.
        -- destruct Hrest as [-> [Ha Hc]]. split; [reflexivity|]. split; simpl; congruence.
      * intros t1 t2 [= <-] Hpre. specialize (Hreport t2 Hpre). simpl in Hreport.
        assert (Hend : In (parse_report dir name bad)
                         (console (state_of (forOf (load_collection dir) root2 sb)))).
        { apply (forOf_keeps (load_collection dir)
                   (fun s => In (parse_report dir name bad) (console s)));
            [intros; now apply console_kept_collection|exact Hreport]. }
        destruct (forOf (load_collection dir) root2 sb); simpl in *;
          [exact Hend|apply in_app_iff; now left].
    + destruct Halike as [-> [Ha Hc]]. split.
      * simpl. split; [reflexivity|]. split; simpl; congruence.
      * intros t1 t2 [= <-] Hpre. specialize (Hreport t2 Hpre). simpl in *.
        apply in_app_iff. now left.
  - split; [|discriminate]. simpl. split; [reflexivity|now split].
Qed.

(** *** Readiness *)

Lemma building_not_ready s : building s -> _isReady (this s) = false.
Proof.
  induction 1 as [|s entry _ IH|s text _ IH]; [reflexivity| |exact IH].
  destruct (index_entry s entry) as [s'|e s'] eqn:Hrun; simpl.
  - destruct (index_entry_normal _ _ _ Hrun) as [_ [_ [_ [_ [Hr _]]]]]. congruence.
  - now rewrite (index_entry_abrupt _ _ _ _ Hrun).
Qed.

Lemma load_file_building path s file :
  building s -> building (state_of (load_file path s file)).
Proof.
  intros Hb. unfold load_file. destruct (JSON_parse (fileData file)) as [parsed|].
  - apply (forOf_keeps index_entry building); [intros; now constructor|exact Hb].
  - simpl. now constructor.
Qed.

Lemma load_collection_building dir s collection :
  building s -> building (state_of (load_collection dir s collection)).
Proof.
  intros Hb. unfold load_collection. destruct (snd collection) as [files|]; [|exact Hb].
  apply (forOf_keeps (load_file _) building); [intros; now apply load_file_building|exact Hb].
Qed.

Lemma load_collections_building dir root s :
  building s -> building (state_of (forOf (load_collection dir) root s)).
Proof.
  apply (forOf_keeps (load_collection dir) building). intros. now apply load_collection_building.
Qed.

(** C5. While the index is being built (in the state of the constructor
    and in every state the loops of [loadDictionaries] pass through, after
    any number of files and collections) [findTerm] throws the error
    'Dictionaries not loaded' for every key, so it never returns an empty
    result there; so it does after a load that throws. After a load that
    returns, [findTerm] returns a result for every key and does not throw. *)
Theorem C5_not_ready_until_loaded :
  (forall s, building s ->
     forall searchTerm,
       findTerm (this s) searchTerm = Throw notLoaded
       /\ findTerm (this s) searchTerm <> Ok [])
  /\ (forall s path file, building s -> building (state_of (load_file path s file)))
  /\ (forall s dir collection,
        building s -> building (state_of (load_collection dir s collection)))
  /\ (forall dir root e s,
        loadDictionaries dir root start_run = Abrupt e s ->
        forall searchTerm, findTerm (this s) searchTerm = Throw notLoaded)
  /\ (forall dir root s,
        loadDictionaries dir root start_run = Normal s ->
        forall searchTerm, exists found, findTerm (this s) searchTerm = Ok found).
Proof.
  assert (Hthrow : forall s, building s ->
            forall searchTerm, findTerm (this s) searchTerm = Throw notLoaded).
  { intros s Hb searchTerm. unfold findTerm. now rewrite (building_not_ready s Hb). }
  refine (conj _ (conj _ (conj _ (conj _ _)))).
  - intros s Hb searchTerm. rewrite (Hthrow s Hb). split; [reflexivity|discriminate].
  - intros s path file. apply load_file_building.
  - intros s dir collection. apply load_collection_building.
  - intros dir root e s Hload searchTerm. unfold loadDictionaries in Hload.
    pose proof (load_collections_building dir root start_run building_start) as Hb.
    destruct (forOf (load_collection dir) root start_run) as [s'|e' s']; [discriminate|].
    injection Hload as _ <-. apply (Hthrow (console_error _ s')). now constructor.
  - intros dir root s Hload searchTerm.
    destruct (loaded_normal _ _ _ Hload) as [s' [_ [-> _]]].
    eexists. now apply findTerm_ready.
Qed.

End Loading.

Lemma C1_witness :
  exists s,
    loadDictionaries (lib := Sample.library) (lit "dictionaries") Sample.root start_run = Normal s
    /\ exists found,
         findTerm (this s) Sample.neko_kana = Ok found
         /\ found = uniqueObjects (termBucket s Sample.neko_kana ++ readingBucket s Sample.neko_kana)
         /\ (forall e, In e found <->
                       In e (termBucket s Sample.neko_kana) \/ In e (readingBucket s Sample.neko_kana))
         /\ List.NoDup (List.map ref found)
         /\ (forall e, In e found ->
               term e = JStr Sample.neko_kana \/ reading e = JStr Sample.neko_kana)
         /\ (_termDictionaries (this s) !! Sample.neko_kana = None ->
             _readingIndex (this s) !! Sample.neko_kana = None -> found = []).
Proof.
  set (s := state_of (loadDictionaries (lib := Sample.library) (lit "dictionaries")
                        Sample.root start_run)).
  assert (H : loadDictionaries (lib := Sample.library) (lit "dictionaries") Sample.root start_run
              = Normal s) by (vm_compute; reflexivity).
  exists s. split; [exact H|].
  exact (proj1 (C1_findTerm_is_union_of_buckets (lib := Sample.library) (lit "dictionaries") Sample.root s H)
           Sample.neko_kana).
Defined.

Lemma C5_witness :
  building (lib := Sample.library) start_run
  /\ findTerm (this start_run) Sample.neko_kana = Throw notLoaded
  /\ findTerm (this start_run) Sample.neko_kana <> Ok []
  /\ exists found,
       findTerm (this (state_of (loadDictionaries (lib := Sample.library) (lit "dictionaries")
                                   Sample.root start_run))) Sample.neko_kana = Ok found.
Proof.
  split; [constructor|].
  split; [exact (proj1 (proj1 (C5_not_ready_until_loaded (lib := Sample.library))
                          start_run (building_start (lib := Sample.library)) Sample.neko_kana))|].
  split; [exact (proj2 (proj1 (C5_not_ready_until_loaded (lib := Sample.library))
                          start_run (building_start (lib := Sample.library)) Sample.neko_kana))|].
  apply (proj2 (proj2 (proj2 (proj2 (C5_not_ready_until_loaded (lib := Sample.library)))))
           (lit "dictionaries") Sample.root).
  vm_compute. reflexivity.
Defined.

End Index.

(** ** The query loop of the functional implementation, and [start] *)

Module Resolver.
Import JS Functional Notions Loops.

Lemma calls_app a b : calls (a ++ b) = (calls a + calls b)%nat.
Proof. unfold calls. now rewrite List.filter_app, length_app. Qed.

Lemma calls_log lines : calls (List.map ConsoleLog lines) = 0%nat.
Proof. induction lines as [|l ls IH]; [reflexivity|exact IH]. Qed.

Lemma calls_none events :
  (forall ev, In ev events -> exists line, ev = ConsoleLog line) -> calls events = 0%nat.
Proof.
  induction events as [|ev evs IH]; intros Hall; [reflexivity|].
  destruct (Hall ev (or_introl eq_refl)) as [line ->].
  apply IH. intros ev' Hev'. apply Hall. now right.
Qed.



Lemma shown_only_logs collectionName results ev :
  In ev (shown collectionName results) -> exists line, ev = ConsoleLog line.
Proof.
  intros [<-|Hin]; [eauto|]. apply in_flat_map in Hin as [r [_ Hin]].
  apply in_app_iff in Hin as [Hin|[<-|[]]]; [|eauto].
  apply in_map_iff in Hin as [line [<- _]]. eauto.
Qed.

Lemma emit_emit a b s : emit b (emit a s) = emit (a ++ b) s.
Proof. unfold emit. simpl. now rewrite app_assoc. Qed.

Lemma emit_nil s : emit [] s = s.
Proof. unfold emit. rewrite app_nil_r. now destruct s. Qed.

Lemma show_each_normal results s0 :
  (forall r, In r results -> exists v, get_index r 5 = Ok v) ->
  forOf show_result results s0 =
    Normal (emit (flat_map (fun result =>
                    List.map ConsoleLog (logContent (birdnest result) [])
                    ++ [ConsoleLog (lit "---")]) results) s0).
Proof.
  revert s0. induction results as [|r rest IH]; intros s0 Hidx; simpl.
  - now rewrite emit_nil.
  - unfold show_result at 1, birdnest at 1.
    destruct (Hidx r (or_introl eq_refl)) as [v ->].
    rewrite IH by (intros; apply Hidx; now right).
    now rewrite emit_emit.
Qed.

Lemma show_results_normal collectionName results s :
  (forall r, In r results -> exists v, get_index r 5 = Ok v) ->
  show_results collectionName results s = Normal (emit (shown collectionName results) s).
Proof.
  intros Hidx. unfold show_results, shown.
  rewrite (show_each_normal results _ Hidx), emit_emit. reflexivity.
Qed.



(** *** The memo of the lemma form *)

Lemma show_results_keeps collectionName results s :
  basicForm (state_of (show_results collectionName results s)) = basicForm s
  /\ calls (trace (state_of (show_results collectionName results s))) = calls (trace s).
Proof.
  unfold show_results.
  apply (forOf_keeps show_result
           (fun s' => basicForm s' = basicForm s /\ calls (trace s') = calls (trace s))).
  - intros s' r [Hb Hc]. unfold show_result. destruct (get_index r 5); simpl; [|now split].
    split; [exact Hb|]. rewrite calls_app, calls_app, calls_log, Hc. unfold calls. simpl. lia.
  - simpl. split; [reflexivity|]. rewrite calls_app. unfold calls at 2. simpl. lia.
Qed.

Lemma processCollection_memo build searchTerm s collection :
  (forall form, getBasicForm build searchTerm = Ok form -> form <> []) ->
  memo_ok s ->
  match processCollection build searchTerm s collection with
  | Normal s' => memo_ok s'
  | Abrupt _ s' => (calls (trace s') <= 1)%nat
  end.
Proof.
  intros Hform Hs.
  assert (Hle : forall t, memo_ok t -> (calls (trace t) <= 1)%nat)
    by (intros t [H|[H _]]; lia).
  assert (Hshow : forall name results t, memo_ok t ->
            match show_results name results t with
            | Normal s' => memo_ok s'
            | Abrupt _ s' => (calls (trace s') <= 1)%nat
            end).
  { intros name results t Ht.
    destruct (show_results_keeps name results t) as [Hb Hc].
    destruct (show_results name results t) as [t'|e t']; simpl in Hb, Hc.
    - unfold memo_ok. rewrite Hb, Hc. exact Ht.
    - rewrite Hc. now apply Hle. }
  unfold processCollection.
  destruct (filterR (matches searchTerm) (snd collection)) as [[|r rs]|e]; [|now apply Hshow|now apply Hle].
  assert (Hensure : match ensureBasicForm build searchTerm s with
                    | Normal s' => memo_ok s'
                    | Abrupt _ s' => (calls (trace s') <= 1)%nat
                    end).
  { unfold ensureBasicForm. destruct (notBasicForm (basicForm s)) eqn:Hnot; [|exact Hs].
    assert (Hzero : calls (trace s) = 0%nat) by (destruct Hs as [H|[_ H]]; congruence).
    destruct (getBasicForm build searchTerm) as [form|e] eqn:Hget; cbn [trace basicForm emit].
    - right. cbn [trace basicForm]. rewrite calls_app, Hzero. split; [reflexivity|].
      specialize (Hform form eq_refl). now destruct form.
    - rewrite calls_app, Hzero. unfold calls. simpl. lia. }
  destruct (ensureBasicForm build searchTerm s) as [s'|e s']; [|exact Hensure].
  destruct (basicForm s') as [form|]; [|exact Hensure].
  destruct (filterR (matches form) (snd collection)) as [[|r rs]|e];
    [exact Hensure|now apply Hshow|now apply Hle].
Qed.

(** When the lemma form is not the empty string, one query calls
    [getBasicForm] at most once, however many collections have no exact
    match and however the query ends. *)
Lemma lemma_once_when_not_empty build dictionaryMap searchTerm :
  (forall form, getBasicForm build searchTerm = Ok form -> form <> []) ->
  (calls (trace (state_of (processQuery build dictionaryMap searchTerm))) <= 1)%nat.
Proof.
  intros Hform. unfold processQuery.
  pose proof (forOf_ends (processCollection build searchTerm) memo_ok
                (fun s => (calls (trace s) <= 1)%nat)
                (fun s c Hs => processCollection_memo build searchTerm s c Hform Hs)
                dictionaryMap start_query (or_introl eq_refl)) as H.
  destruct (forOf (processCollection build searchTerm) dictionaryMap start_query); simpl.
  - destruct H as [H|[H _]]; lia.
  - exact H.
Qed.

(** The turn of a collection without an exact match looks the lemma form
    up, whatever was printed before: collections with results do not
    change [basicForm], so they do not stand in the way. *)
Lemma fallback_after_results build searchTerm s collectionName results next :
  (forall r, In r results -> exists v, get_index r 5 = Ok v) ->
  filterR (matches searchTerm) (snd next) = Ok [] ->
  forOf (processCollection build searchTerm) [next]
    (state_of (show_results collectionName results s))
  = forOf (processCollection build searchTerm) [next] (emit (shown collectionName results) s)
  /\ basicForm (emit (shown collectionName results) s) = basicForm s.
Proof.
  intros Hidx Hnone. now rewrite (show_results_normal _ _ _ Hidx).
Qed.

(** Why the lemma form has to be not empty for that: with a stand-in
    tokenizer that gives the empty string as basic form, which is falsy,
    [!basicForm] takes the kept form for missing; no sample collection has
    the search term, and [getBasicForm] is called once for each of the
    three collections. With a basic form that is not empty the same query
    calls it once. *)
Lemma empty_form_is_computed_again :
  processQuery (Ok (Sample.tokenizer_to [])) Sample.dictionaryMap Sample.hashitta
  = Normal {| basicForm := Some [];
              trace := [GetBasicForm Sample.hashitta; GetBasicForm Sample.hashitta;
                        GetBasicForm Sample.hashitta] |}
  /\ calls (trace (state_of (processQuery (Ok (Sample.tokenizer_to [])) Sample.dictionaryMap
                               Sample.hashitta))) = 3%nat
  /\ calls (trace (state_of (processQuery (Ok (Sample.tokenizer_to (lit "hashiru")))
                               Sample.dictionaryMap Sample.hashitta))) = 1%nat.
Proof. repeat split. Qed.

(** *** An empty token sequence *)

Lemma getBasicForm_class_empty tokenizer searchTerm :
  tokenizer searchTerm = [] -> Searcher.getBasicForm tokenizer searchTerm = searchTerm.
Proof. unfold Searcher.getBasicForm. now intros ->. Qed.

Lemma getBasicForm_functional_empty (tokenizer : KuromojiTokenizer) searchTerm :
  tokenizer searchTerm = [] -> getBasicForm (Ok tokenizer) searchTerm = Throw TypeError.
Proof. unfold getBasicForm. cbn [mbind result_bind]. now intros ->. Qed.

(** C4, at the input where the functional implementation departs from it:
    for the empty search term the tokenizer finds no token;
    [DictionaryApp.getBasicForm] of [src/index.ts] returns the search term,
    [getBasicForm] of part_001 throws a TypeError, and the query that needed
    the lemma form ends with it. *)
Theorem C4_empty_tokens :
  Sample.tokenizer_none [] = []
  /\ Searcher.getBasicForm Sample.tokenizer_none [] = []
  /\ getBasicForm (Ok Sample.tokenizer_none) [] = Throw TypeError
  /\ processQuery (Ok Sample.tokenizer_none) Sample.dictionaryMap []
     = Abrupt TypeError {| basicForm := None; trace := [GetBasicForm []] |}.
Proof. repeat split. Qed.

(** *** A malformed file in the functional loader *)

Section FunctionalLoader.
Context {lib : Library}.

Lemma read_files_rejects termBank files bad :
  In bad files -> JSON_parse (fileData bad) = None ->
  read_files termBank files = Throw SyntaxError.
Proof.
  revert termBank. induction files as [|file rest IH]; intros termBank Hin Hparse; [destruct Hin|].
  simpl. unfold read_file at 1.
  destruct (JSON_parse (fileData file)) as [obj|] eqn:Hfile; [|reflexivity].
  cbn [mbind result_bind]. destruct Hin as [->|Hin]; [congruence|now apply IH].
Qed.

Lemma load_collections_throws dictionaryMap root e :
  load_collections dictionaryMap root = Throw e -> e = SyntaxError.
Proof.
  revert dictionaryMap. induction root as [|collection rest IH]; intros dictionaryMap; [discriminate|].
  simpl. unfold load_collection at 1. destruct (snd collection) as [files|].
  - destruct (read_files [] (List.filter isJsonFile files)) as [termBank|e'] eqn:Hread.
    + cbn [mbind result_bind]. apply IH.
    + cbn [mbind result_bind]. intros [= <-].
      clear -Hread. revert Hread. generalize (@nil JSValue) as tb.
      induction (List.filter isJsonFile files) as [|file fs IHf]; intros tb; [discriminate|].
      simpl. unfold read_file at 1. destruct (JSON_parse (fileData file)).
      * cbn [mbind result_bind]. apply IHf.
      * cbn [mbind result_bind]. now intros [= <-].
  - cbn [mbind result_bind]. apply IH.
Qed.

(** In part_001 one JSON file that is not valid JSON makes the whole load
    throw: no file is skipped, no dictionary map is returned, and the
    console names no file. *)
Lemma functional_load_rejects root name files bad :
  In (name, Directory files) root -> In bad files -> isJsonFile bad = true ->
  JSON_parse (fileData bad) = None ->
  loadDictionaries root = ([LogError (lit "Error loading dictionaries:")], Throw SyntaxError).
Proof.
  intros Hcoll Hbad Hjson Hparse. unfold loadDictionaries.
  assert (H : forall dictionaryMap, load_collections dictionaryMap root = Throw SyntaxError).
  { induction root as [|collection rest IH]; intros dictionaryMap; [destruct Hcoll|].
    simpl. destruct Hcoll as [->|Hcoll].
    - unfold load_collection. cbn [snd fst].
      rewrite (read_files_rejects [] (List.filter isJsonFile files) bad); [reflexivity| |exact Hparse].
      apply filter_In. now split.
    - destruct (load_collection dictionaryMap collection) as [dm|e] eqn:Hc.
      + cbn [mbind result_bind]. now apply IH.
      + cbn [mbind result_bind]. f_equal.
        apply (load_collections_throws dictionaryMap [collection]). simpl. now rewrite Hc. }
  now rewrite H.
Qed.

End FunctionalLoader.

(** C6, at the input where the functional implementation departs from it:
    the sample tree has a malformed JSON file between two well-formed ones.
    [loadDictionaries] of part_001 throws a SyntaxError, returns no map and
    prints a line that names no file. [loadDictionaries] of [src/index.ts]
    returns, has reported the file with its path, and the records of the
    two other files are found. *)
Theorem C6_malformed_file_in_sample_tree :
  loadDictionaries (lib := Sample.library) Sample.root
  = ([LogError (lit "Error loading dictionaries:")], Throw SyntaxError)
  /\ exists s,
       Searcher.loadDictionaries (lib := Sample.library) (lit "dictionaries") Sample.root
         Searcher.start_run = Normal s
       /\ Searcher.console s = [LogError (lit "Error parsing JSON file dictionaries/jmdict/b.json:")]
       /\ (exists e, Searcher.findTerm (Searcher.this s) Sample.neko_kana = Ok [e]
                     /\ Searcher.term e = JStr Sample.neko_kanji)
       /\ (exists e, Searcher.findTerm (Searcher.this s) [29356] = Ok [e]
                     /\ Searcher.reading e = JStr [12356; 12396]).
Proof.
  split; [reflexivity|].
  eexists. split; [vm_compute; reflexivity|].
  split; [reflexivity|]. split; eexists; split; vm_compute; reflexivity.
Qed.

End Resolver.

(** ** More on the flattener *)

Module FlattenerLaws.
Import JS Functional Notions Derived StringFacts Flattener.

(** The [content] property is a property of the object, or [undefined]. *)
Lemma get_prop_in name props :
  In (name, get_prop name props) props \/ get_prop name props = JUndefined.
Proof.
  induction props as [|[k c] rest IH]; [now right|]. simpl.
  unfold jsstring_eqb. case_bool_decide as Hk.
  - subst k. left. now left.
  - destruct IH as [H|H]; [left; now right|now right].
Qed.

Lemma logItem_is_logContent indent item : logItem indent item = logContent item indent.
Proof. destruct item; reflexivity. Qed.

(** The two versions of [logContent], the one of part_001 and the one of
    [src/index.js], print the same lines for every value and indent. *)
Theorem logContent_versions_agree (data : JSValue) (indent : jsstring) :
  logContent_js data indent = logContent data indent.
Proof. apply logContent_js_same. Qed.

(** An array is transparent: its lines are the lines of its items, in
    order, at the same indent; so flattening goes through concatenation,
    and an array inside an array prints what its items print in its place.
    An item that is a number, a boolean or [null] prints nothing. *)
Theorem arrays_are_transparent :
  (forall items indent,
     logContent (JArr items) indent = flat_map (fun item => logContent item indent) items)
  /\ (forall xs ys indent,
        logContent (JArr (xs ++ ys)) indent
        = logContent (JArr xs) indent ++ logContent (JArr ys) indent)
  /\ (forall xs inner ys indent,
        logContent (JArr (xs ++ JArr inner :: ys)) indent
        = logContent (JArr (xs ++ inner ++ ys)) indent)
  /\ (forall xs z b ys indent,
        logContent (JArr (xs ++ JNum z :: JBool b :: JNull :: ys)) indent
        = logContent (JArr (xs ++ ys)) indent).
Proof.
  assert (Hflat : forall items indent,
            logContent (JArr items) indent = flat_map (fun item => logContent item indent) items).
  { intros items indent. rewrite logContent_array. apply flat_map_ext.
    intros item. apply logItem_is_logContent. }
  assert (Happ : forall xs ys indent,
            logContent (JArr (xs ++ ys)) indent
            = logContent (JArr xs) indent ++ logContent (JArr ys) indent).
  { intros xs ys indent. now rewrite !Hflat, flat_map_app. }
  refine (conj Hflat (conj Happ (conj _ _))).
  - intros xs inner ys indent.
    change (JArr inner :: ys) with ([JArr inner] ++ ys).
    rewrite !Happ. f_equal. f_equal. rewrite (Hflat [JArr inner]). simpl. apply app_nil_r.
  - intros xs z b ys indent.
    change (JNum z :: JBool b :: JNull :: ys) with ([JNum z; JBool b; JNull] ++ ys).
    now rewrite !Happ.
Qed.

Lemma map_flat_map {A B C} (f : B -> C) (g : A -> list B) (l : list A) :
  List.map f (flat_map g l) = flat_map (fun x => List.map f (g x)) l.
Proof.
  induction l as [|x rest IH]; [reflexivity|]. simpl. now rewrite List.map_app, IH.
Qed.

Lemma flat_map_same_on {A B} (f g : A -> list B) (l : list A) :
  (forall x, In x l -> f x = g x) -> flat_map f l = flat_map g l.
Proof.
  induction l as [|x rest IH]; intros H; [reflexivity|]. simpl.
  rewrite (H x (or_introl eq_refl)), IH; [reflexivity|]. intros y Hy. apply H. now right.
Qed.

Lemma logLines_prefix s pre indent :
  logLines s (pre ++ indent) = List.map (app pre) (logLines s indent).
Proof.
  unfold logLines. rewrite List.map_map. apply List.map_ext.
  intros line. now rewrite app_assoc.
Qed.

(** The indent is only a prefix: the lines printed at an indent that
    begins with [pre] are the lines printed without [pre], each with [pre]
    in front. So the lines at any indent are the lines at the empty indent
    behind that indent, and the number of lines does not depend on the
    indent. *)
Theorem indent_is_a_prefix (data : JSValue) :
  forall pre indent,
    logContent data (pre ++ indent) = List.map (app pre) (logContent data indent).
Proof.
  induction data as [| |b|z|s|items IH|props IH] using JSValue_induction;
    intros pre indent; try reflexivity.
  - apply logLines_prefix.
  - rewrite !logContent_array, map_flat_map.
    apply flat_map_same_on. intros item Hitem.
    destruct item; try reflexivity; try (apply IH; exact Hitem).
    apply logLines_prefix.
  - rewrite !logContent_object. unfold logNode.
    destruct (truthy (get_prop (lit "content") props)); [|reflexivity].
    destruct (get_prop_in (lit "content") props) as [Hin|Hundef].
    + destruct (get_prop (lit "content") props) eqn:Hc;
        try (rewrite <- app_assoc; apply (IH _ _ Hin)).
      simpl. now rewrite app_assoc.
    + rewrite Hundef. reflexivity.
Qed.

End FlattenerLaws.

(** ** More on the normalizer *)

Module NormalizerLaws.
Import JS Searcher Notions Derived StringFacts.

Lemma formatTags_bad v : tagField_ok v = false -> formatTags v = Throw TypeError.
Proof.
  unfold formatTags, js_or. destruct v as [| |b|z|s|items|props]; simpl; try discriminate;
    try reflexivity.
  - destruct b; [reflexivity|discriminate].
  - destruct (z =? 0)%Z; [discriminate|reflexivity].
Qed.

Lemma get_index_indexable v i :
  match get_index v i with
  | Ok _ => indexable v = true
  | Throw e => e = TypeError /\ indexable v = false
  end.
Proof. destruct v; simpl; auto. Qed.

(** [_formatEntry] throws nothing but a TypeError, and it throws exactly
    for a record that is [null] (or [undefined]) and for a record whose
    position 2 is truthy and not a string; for every other record, array or
    not, it returns an entry with the identity it was given. *)
Theorem formatEntry_outcome {lib : Library} (rawEntry : JSValue) (r : nat) :
  match _formatEntry rawEntry r with
  | Throw e =>
      e = TypeError
      /\ (indexable rawEntry = false
          \/ exists v, get_index rawEntry 2 = Ok v /\ tagField_ok v = false)
  | Ok entry =>
      ref entry = r
      /\ indexable rawEntry = true
      /\ exists v, get_index rawEntry 2 = Ok v /\ tagField_ok v = true
  end.
Proof.
  destruct (indexable rawEntry) eqn:Hidx.
  - assert (Hget : forall i, exists v, get_index rawEntry i = Ok v).
    { intros i. pose proof (get_index_indexable rawEntry i) as H.
      destruct (get_index rawEntry i) as [v|e]; [eauto|]. destruct H as [_ H]. congruence. }
    unfold _formatEntry.
    destruct (Hget 5%nat) as [e5 ->], (Hget 0%nat) as [e0 ->], (Hget 1%nat) as [e1 ->],
      (Hget 2%nat) as [e2 H2], (Hget 3%nat) as [e3 ->], (Hget 4%nat) as [e4 ->],
      (Hget 6%nat) as [e6 ->], (Hget 7%nat) as [e7 ->].
    rewrite H2. cbn [mbind result_bind].
    destruct (tagField_ok e2) eqn:Htag.
    + rewrite (Normalizer.formatTags_ok _ Htag). cbn [mbind result_bind ref].
      split; [reflexivity|]. split; [reflexivity|]. now exists e2.
    + rewrite (formatTags_bad _ Htag). cbn [mbind result_bind].
      split; [reflexivity|]. right. now exists e2.
  - unfold _formatEntry. pose proof (get_index_indexable rawEntry 5) as H.
    destruct (get_index rawEntry 5) as [v|e]; [congruence|]. destruct H as [-> _].
    cbn [mbind result_bind]. split; [reflexivity|now left].
Qed.

(** Splitting what [join] made of pieces without the separator gives the
    pieces back. *)
Lemma split_join sep pieces :
  pieces <> [] -> (forall t, In t pieces -> ~ In sep t) ->
  split sep (join [sep] pieces) = pieces.
Proof.
  induction pieces as [|p rest IH]; [contradiction|]. intros _ Hno.
  assert (Hp : ~ In sep p) by (apply Hno; now left).
  destruct rest as [|q rest'].
  - simpl. clear IH Hno. induction p as [|c p IHp]; [reflexivity|].
    simpl. destruct (N.eqb_spec c sep) as [->|Hne]; [exfalso; apply Hp; now left|].
    rewrite IHp; [reflexivity|]. intros H. apply Hp. now right.
  - change (join [sep] (p :: q :: rest')) with (p ++ [sep] ++ join [sep] (q :: rest')).
    specialize (IH ltac:(discriminate) ltac:(intros t Ht; apply Hno; now right)).
    revert IH. generalize (join [sep] (q :: rest')) as tail. intros tail IH.
    clear Hno. induction p as [|c p IHp].
    + simpl. rewrite N.eqb_refl. now rewrite IH.
    + simpl. destruct (N.eqb_spec c sep) as [->|Hne]; [exfalso; apply Hp; now left|].
      simpl in IHp. rewrite IHp; [reflexivity|]. intros H. apply Hp. now right.
Qed.

(** Round trip of the tags: for tags that are not empty and hold no space,
    the record whose tag string is the tags joined by single spaces
    normalizes to an entry with exactly these tags. *)
Theorem tags_round_trip {lib : Library} (ts : list jsstring) (termv readingv : JSValue) (r : nat) :
  (forall t, In t ts -> t <> [] /\ ~ In space t) ->
  exists entry,
    _formatEntry (JArr [termv; readingv; JStr (join [space] ts)]) r = Ok entry
    /\ tags entry = ts.
Proof.
  intros Hts.
  assert (Htags : formatTags (JStr (join [space] ts)) = Ok ts).
  { rewrite Normalizer.formatTags_ok by reflexivity. simpl tagString. f_equal.
    destruct ts as [|t rest]; [reflexivity|].
    rewrite split_join; [|discriminate|intros u Hu; now apply Hts].
    clear -Hts. induction (t :: rest) as [|u us IH]; [reflexivity|].
    simpl. destruct u as [|c u']; [exfalso; now apply (proj1 (Hts [] (or_introl eq_refl)))|].
    simpl. f_equal. apply IH. intros v Hv. apply Hts. now right. }
  unfold _formatEntry. simpl get_index. cbn [mbind result_bind].
  rewrite Htags. cbn [mbind result_bind]. eexists. split; reflexivity.
Qed.

Lemma tags_round_trip_witness :
  (forall t, In t [lit "n"; lit "common"] -> t <> [] /\ ~ In space t)
  /\ exists entry,
       _formatEntry (lib := Sample.library)
         (JArr [JStr (lit "inu"); JStr (lit "dog"); JStr (join [space] [lit "n"; lit "common"])]) 0
       = Ok entry
       /\ tags entry = [lit "n"; lit "common"].
Proof.
  assert (H : forall t, In t [lit "n"; lit "common"] -> t <> [] /\ ~ In space t).
  { intros t [<-|[<-|[]]]; (split; [discriminate|]); vm_compute; intuition discriminate. }
  split; [exact H|].
  exact (tags_round_trip (lib := Sample.library) [lit "n"; lit "common"]
           (JStr (lit "inu")) (JStr (lit "dog")) 0 H).
Defined.

End NormalizerLaws.

(** ** More on the index of [src/index.ts] *)

Module IndexLaws.
Import JS Searcher Notions Derived Loops Index.

Lemma ascending_snoc entries x :
  ascending entries -> (forall y, In y entries -> (ref y < ref x)%nat) ->
  ascending (entries ++ [x]).
Proof.
  induction entries as [|z rest IH]; simpl; intros Hasc Hlt.
  - split; [intros y []|exact I].
  - destruct Hasc as [Hz Hrest]. split.
    + intros y Hy. apply in_app_iff in Hy as [Hy|[<-|[]]]; [now apply Hz|].
      apply Hlt. now left.
    + apply IH; [exact Hrest|]. intros y Hy. apply Hlt. now right.
Qed.

Lemma ascending_NoDup entries : ascending entries -> List.NoDup (List.map ref entries).
Proof.
  induction entries as [|z rest IH]; simpl; intros Hasc; [constructor|].
  destruct Hasc as [Hz Hrest]. constructor; [|now apply IH].
  rewrite in_map_iff. intros [y [Hy Hin]]. specialize (Hz y Hin). lia.
Qed.

Section Loading.
Context {lib : Library}.

Lemma index_entry_ordered s entry :
  Inv s /\ ordered s -> Inv (state_of (index_entry s entry)) /\ ordered (state_of (index_entry s entry)).
Proof.
  intros [HI Hord]. split; [now apply index_entry_Inv|].
  destruct (index_entry s entry) as [s'|x s'] eqn:Hrun; simpl.
  2:{ now rewrite (index_entry_abrupt _ _ _ _ Hrun). }
  destruct (index_entry_normal _ _ _ Hrun) as [e [He [_ [_ [_ [HT HR]]]]]].
  destruct (formatEntry_fields _ _ _ He) as [Href _].
  intros k. rewrite HT, HR. destruct (Hord k) as [Ht Hr]. split.
  - destruct (keyed (term e) k); [|now rewrite app_nil_r].
    apply ascending_snoc; [exact Ht|]. intros y Hy. rewrite Href.
    apply (inv_fresh s HI). exists k. now left.
  - destruct (keyed (reading e) k); [|now rewrite app_nil_r].
    apply ascending_snoc; [exact Hr|]. intros y Hy. rewrite Href.
    apply (inv_fresh s HI). exists k. now right.
Qed.

Lemma load_keeps_order dir root :
  Inv (state_of (forOf (load_collection dir) root start_run))
  /\ ordered (state_of (forOf (load_collection dir) root start_run)).
Proof.
  apply (forOf_keeps (load_collection dir) (fun s => Inv s /\ ordered s)).
  - intros s collection H. unfold load_collection.
    destruct (snd collection) as [files|]; [|exact H].
    apply (forOf_keeps (load_file _) (fun s => Inv s /\ ordered s)); [|exact H].
    intros t file Ht. unfold load_file. destruct (JSON_parse (fileData file)).
    + apply (forOf_keeps index_entry (fun s => Inv s /\ ordered s)); [|exact Ht].
      intros; now apply index_entry_ordered.
    + destruct Ht as [[H1 H2 H3 H4 H5] Ho]. split; [split; assumption|exact Ho].
  - split; [exact Inv_start|]. intros k. unfold termBucket, readingBucket, bucket. simpl.
    rewrite lookup_empty. simpl. tauto.
Qed.

(** What [loadDictionaries] leaves behind, whether it returns or throws:
    the state with the maps of the loops' last state. *)
Lemma loaded_maps dir root :
  this (state_of (loadDictionaries dir root start_run))
  = {| _termDictionaries :=
         _termDictionaries (this (state_of (forOf (load_collection dir) root start_run)));
       _readingIndex :=
         _readingIndex (this (state_of (forOf (load_collection dir) root start_run)));
       _isReady := _isReady (this (state_of (loadDictionaries dir root start_run))) |}.
Proof.
  unfold loadDictionaries.
  destruct (forOf (load_collection dir) root start_run) as [s|e s]; simpl; [reflexivity|].
  now destruct (this s).
Qed.

(** The two maps of the index agree with each other after every load,
    also after one that throws half way: an entry in the term bucket of a
    key has that key as its term and is in the reading bucket of its
    reading, an entry in the reading bucket of a key has that key as its
    reading and is in the term bucket of its term, and entries with one
    identity are one entry. *)
Theorem maps_agree dir root :
  let s := state_of (loadDictionaries dir root start_run) in
  (forall k e, In e (termBucket s k) ->
     term e = JStr k /\ (forall r, reading e = JStr r -> In e (readingBucket s r)))
  /\ (forall k e, In e (readingBucket s k) ->
        reading e = JStr k /\ (forall t, term e = JStr t -> In e (termBucket s t)))
  /\ (forall e e', stored s e -> stored s e' -> ref e = ref e' -> e = e').
Proof.
  intros s. destruct (load_keeps_order dir root) as [HI _].
  set (s0 := state_of (forOf (load_collection dir) root start_run)) in *.
  assert (HT : forall k, termBucket s k = termBucket s0 k)
    by (intros k; unfold termBucket, s; now rewrite loaded_maps).
  assert (HR : forall k, readingBucket s k = readingBucket s0 k)
    by (intros k; unfold readingBucket, s; now rewrite loaded_maps).
  assert (Hst : forall e, stored s e -> stored s0 e).
  { intros e [k H]. exists k. now rewrite <- HT, <- HR. }
  split; [|split].
  - intros k e He. rewrite HT in He. split; [exact (inv_term s0 HI _ _ He)|].
    intros r Hr. rewrite HR. apply (inv_both s0 HI e); [exists k; now left|exact Hr].
  - intros k e He. rewrite HR in He. split; [exact (inv_reading s0 HI _ _ He)|].
    intros t Ht. rewrite HT. apply (inv_both s0 HI e); [exists k; now right|exact Ht].
  - intros e e' He He'. apply (inv_ident s0 HI); now apply Hst.
Qed.

(** *** The order of the result *)

Lemma filter_same_on {A} (p q : A -> bool) (l : list A) :
  (forall x, In x l -> p x = q x) -> List.filter p l = List.filter q l.
Proof.
  induction l as [|x rest IH]; intros H; [reflexivity|]. simpl.
  rewrite (H x (or_introl eq_refl)), IH; [reflexivity|]. intros y Hy. apply H. now right.
Qed.

Lemma filter_all {A} (p : A -> bool) (l : list A) :
  (forall x, In x l -> p x = true) -> List.filter p l = l.
Proof.
  induction l as [|x rest IH]; intros H; [reflexivity|]. simpl.
  rewrite (H x (or_introl eq_refl)), IH; [reflexivity|]. intros y Hy. apply H. now right.
Qed.

Lemma filter_twice {A} (p q : A -> bool) (l : list A) :
  List.filter p (List.filter q l) = List.filter (fun x => p x && q x) l.
Proof.
  induction l as [|x rest IH]; [reflexivity|]. simpl.
  destruct (q x); simpl; [destruct (p x); simpl; now rewrite IH|].
  rewrite andb_false_r. exact IH.
Qed.

Lemma uniqueObjects_app first second :
  List.NoDup (List.map ref first) -> List.NoDup (List.map ref second) ->
  uniqueObjects (first ++ second) = first ++ List.filter (fresh_in first) second.
Proof.
  intros Hfirst Hsecond. induction first as [|x rest IH].
  - simpl. rewrite (uniqueObjects_id _ Hsecond). symmetry. now apply filter_all.
  - inversion Hfirst as [|? ? Hnin Hrest]; subst. simpl.
    rewrite (IH Hrest), List.filter_app, filter_twice. f_equal. f_equal.
    apply filter_all. intros y Hy. apply negb_true_iff, Nat.eqb_neq.
    intros Heq. apply Hnin. rewrite <- Heq. now apply in_map.
Qed.

(** On a loaded index [findTerm] returns first the entries whose term is
    the key, then the entries whose reading is the key and whose term is
    not, both in the order in which the records were read. *)
Theorem findTerm_in_load_order dir root s :
  loadDictionaries dir root start_run = Normal s ->
  forall searchTerm,
    findTerm (this s) searchTerm
    = Ok (termBucket s searchTerm
          ++ List.filter (fun e => negb (keyed (term e) searchTerm))
               (readingBucket s searchTerm))
    /\ ascending (termBucket s searchTerm)
    /\ ascending (readingBucket s searchTerm).
Proof.
  intros Hload searchTerm.
  destruct (loaded_normal _ _ _ Hload) as [s' [Hrun [-> HI]]].
  pose proof (load_keeps_order dir root) as [_ Hord]. rewrite Hrun in Hord. simpl in Hord.
  destruct (Hord searchTerm) as [HT HR].
  change (termBucket (set_ready s') searchTerm) with (termBucket s' searchTerm).
  change (readingBucket (set_ready s') searchTerm) with (readingBucket s' searchTerm).
  split; [|now split].
  rewrite findTerm_ready by reflexivity. f_equal.
  change (bucket (_termDictionaries (this (set_ready s'))) searchTerm)
    with (termBucket s' searchTerm).
  change (bucket (_readingIndex (this (set_ready s'))) searchTerm)
    with (readingBucket s' searchTerm).
  rewrite uniqueObjects_app by now apply ascending_NoDup.
  f_equal. apply filter_same_on. intros y Hy.
  destruct (keyed (term y) searchTerm) eqn:Hk; simpl.
  - apply keyed_spec in Hk.
    assert (Hin : In y (termBucket s' searchTerm)).
    { apply (inv_both s' HI y); [exists searchTerm; now right|exact Hk]. }
    unfold fresh_in. apply not_true_is_false. intros Hall.
    rewrite forallb_forall in Hall. specialize (Hall y Hin).
    now rewrite Nat.eqb_refl in Hall.
  - unfold fresh_in. apply forallb_forall. intros x Hx.
    apply negb_true_iff, Nat.eqb_neq. intros Heq.
    assert (y = x).
    { apply (inv_ident s' HI); [exists searchTerm; now right|exists searchTerm; now left|exact Heq]. }
    subst x. apply (inv_term s' HI) in Hx. apply keyed_spec in Hx. congruence.
Qed.

End Loading.

Lemma findTerm_in_load_order_witness :
  exists s,
    loadDictionaries (lib := Sample.library) (lit "dictionaries") Sample.root start_run = Normal s
    /\ findTerm (this s) Sample.neko_kana
       = Ok (termBucket s Sample.neko_kana
             ++ List.filter (fun e => negb (keyed (term e) Sample.neko_kana))
                  (readingBucket s Sample.neko_kana)).
Proof.
  set (s := state_of (loadDictionaries (lib := Sample.library) (lit "dictionaries")
                        Sample.root start_run)).
  assert (H : loadDictionaries (lib := Sample.library) (lit "dictionaries") Sample.root start_run
              = Normal s) by (vm_compute; reflexivity).
  exists s. split; [exact H|].
  exact (proj1 (findTerm_in_load_order (lib := Sample.library) _ _ s H Sample.neko_kana)).
Defined.

Lemma skip_malformed_file_witness :
  Searcher.isJsonFile (lib := Sample.library) (Sample.file "b.json" Sample.bad_text) = true
  /\ JSON_parse (Library := Sample.library) (fileData (Sample.file "b.json" Sample.bad_text)) = None
  /\ alike
       (loadDictionaries (lib := Sample.library) (lit "dictionaries")
          ([] ++ (lit "jmdict",
                  Directory ([Sample.file "a.json" Sample.good_text]
                             ++ Sample.file "b.json" Sample.bad_text
                             :: [Sample.file "c.json" Sample.other_text]))
              :: [(lit "README", NotDirectory)]) start_run)
       (loadDictionaries (lib := Sample.library) (lit "dictionaries")
          ([] ++ (lit "jmdict",
                  Directory ([Sample.file "a.json" Sample.good_text]
                             ++ [Sample.file "c.json" Sample.other_text]))
              :: [(lit "README", NotDirectory)]) start_run).
Proof.
  split; [reflexivity|]. split; [reflexivity|].
  exact (proj1 (skip_malformed_file (lib := Sample.library) (lit "dictionaries") []
                  (lit "jmdict") [Sample.file "a.json" Sample.good_text]
                  (Sample.file "b.json" Sample.bad_text)
                  [Sample.file "c.json" Sample.other_text]
                  [(lit "README", NotDirectory)] start_run eq_refl eq_refl)).
Defined.

(** *** What one query answers *)

Section Answers.
Context {lib : Library}.
Import Display.

Lemma displayResults_none results :
  displayResults results = [lit "No results found."] <-> results = [].
Proof.
  split; [|now intros ->].
  destruct results as [|e es]; [reflexivity|]. simpl. intros H.
  injection H as H _. vm_compute in H. discriminate.
Qed.

(** On a consistent index a key finds nothing exactly when no entry has it
    as term or reading. *)
Lemma nothing_found_iff s k :
  Inv s ->
  uniqueObjects (termBucket s k ++ readingBucket s k) = [] <->
  (forall e, stored s e -> term e <> JStr k /\ reading e <> JStr k).
Proof.
  intros HI. split.
  - intros Hnil e He. split; intros Hk.
    + assert (Hin : In e (termBucket s k ++ readingBucket s k))
        by (apply in_app_iff; left; now apply (inv_both s HI e)).
      destruct (uniqueObjects_complete _ _ Hin) as [y [Hy _]]. rewrite Hnil in Hy. destruct Hy.
    + assert (Hin : In e (termBucket s k ++ readingBucket s k))
        by (apply in_app_iff; right; now apply (inv_both s HI e)).
      destruct (uniqueObjects_complete _ _ Hin) as [y [Hy _]]. rewrite Hnil in Hy. destruct Hy.
  - intros Hnone. destruct (uniqueObjects _) as [|y ys] eqn:Hu; [reflexivity|].
    assert (Hy : In y (termBucket s k ++ readingBucket s k))
      by (apply uniqueObjects_incl; rewrite Hu; now left).
    apply in_app_iff in Hy as [Hy|Hy].
    + destruct (Hnone y) as [H _]; [exists k; now left|]. now apply (inv_term s HI) in Hy.
    + destruct (Hnone y) as [_ H]; [exists k; now right|]. now apply (inv_reading s HI) in Hy.
Qed.

(** After a load that returned, what a query of [start] does is settled by
    the index and by the tokenizer. When an entry has the search term as
    its term or reading, the query prints results, whatever the tokenizer
    would do. When none has, the tokenizer is called: an exception of
    [tokenize] ends the query and nothing is printed; when [tokenize]
    returns, the query prints, and it prints 'No results found.' exactly
    when no entry has the search term or the basic form of the first token
    as its term or as its reading. With a tokenizer that returns for every
    text the query hands to [displayResults] what [query] gives. *)
Theorem query_outcome dir root s :
  loadDictionaries dir root start_run = Normal s ->
  forall (tokenize : Tokenize) searchTerm,
    ((exists e, stored s e /\ (term e = JStr searchTerm \/ reading e = JStr searchTerm)) ->
       exists lines, answer (this s) tokenize searchTerm = Ok lines
                     /\ lines <> [lit "No results found."])
    /\ (forall err,
          (forall e, stored s e -> term e <> JStr searchTerm /\ reading e <> JStr searchTerm) ->
          tokenize searchTerm = Throw err ->
          answer (this s) tokenize searchTerm = Throw err)
    /\ (forall tokens, tokenize searchTerm = Ok tokens ->
          exists lines,
            answer (this s) tokenize searchTerm = Ok lines
            /\ (lines = [lit "No results found."] <->
                forall e, stored s e ->
                  term e <> JStr searchTerm /\ reading e <> JStr searchTerm
                  /\ term e <> JStr (Searcher.getBasicForm (fun _ => tokens) searchTerm)
                  /\ reading e <> JStr (Searcher.getBasicForm (fun _ => tokens) searchTerm)))
    /\ (forall tokenizer : KuromojiTokenizer,
          answer (this s) (fun text => Ok (tokenizer text)) searchTerm
          = (results ← snd (query (this s) tokenizer searchTerm);
             Ok (displayResults results))).
Proof.
  intros Hload tokenize searchTerm.
  destruct (loaded_normal _ _ _ Hload) as [s' [_ [-> HI]]].
  assert (Hfind : forall k, findTerm (this (set_ready s')) k
                            = Ok (uniqueObjects (termBucket s' k ++ readingBucket s' k)))
    by (intros k; now apply findTerm_ready).
  assert (Hst : forall e, stored (set_ready s') e <-> stored s' e) by (intros e; reflexivity).
  unfold answer, query. rewrite Hfind. cbn [mbind result_bind].
  destruct (uniqueObjects (termBucket s' searchTerm ++ readingBucket s' searchTerm))
    as [|y ys] eqn:Hexact.
  - pose proof (proj1 (nothing_found_iff s' searchTerm HI) Hexact) as Hq.
    refine (conj _ (conj _ (conj _ _))).
    + intros [e [He [H|H]]]; destruct (Hq e (proj1 (Hst e) He)); contradiction.
    + intros err _ Htok. unfold getBasicForm. rewrite Htok. reflexivity.
    + intros tokens Htok. unfold getBasicForm. rewrite Htok. cbn [mbind result_bind].
      change (match tokens with
              | [] => searchTerm
              | token :: _ => Kuromoji.basic_form token
              end) with (Searcher.getBasicForm (fun _ => tokens) searchTerm).
      unfold jsstring_eqb. case_bool_decide as Hform; cbn [negb].
      * cbn [mbind result_bind]. eexists. split; [reflexivity|]. split; [|reflexivity].
        intros _ e He. rewrite Hform. destruct (Hq e (proj1 (Hst e) He)). tauto.
      * rewrite Hfind. cbn [mbind result_bind]. eexists. split; [reflexivity|].
        rewrite displayResults_none, (nothing_found_iff s' _ HI). split.
        -- intros Hnone e He. destruct (Hq e He), (Hnone e He). tauto.
        -- intros Hnone e He. destruct (Hnone e He) as [_ [_ [H1 H2]]]. tauto.
    + intros tokenizer. unfold getBasicForm. cbn [mbind result_bind snd].
      reflexivity.
  - assert (Hy : In y (termBucket s' searchTerm ++ readingBucket s' searchTerm))
      by (apply uniqueObjects_incl; rewrite Hexact; now left).
    assert (Hsome : ~ (forall e, stored s' e ->
                         term e <> JStr searchTerm /\ reading e <> JStr searchTerm)).
    { intros Hnone. apply in_app_iff in Hy as [Hy|Hy].
      - destruct (Hnone y) as [H _]; [exists searchTerm; now left|].
        now apply (inv_term s' HI) in Hy.
      - destruct (Hnone y) as [_ H]; [exists searchTerm; now right|].
        now apply (inv_reading s' HI) in Hy. }
    cbn [mbind result_bind].
    refine (conj _ (conj _ (conj _ _))).
    + intros _. eexists. split; [reflexivity|].
      intros H. apply displayResults_none in H. discriminate H.
    + intros err Hnone _. exfalso. apply Hsome. intros e He. apply Hnone, Hst, He.
    + intros tokens _. eexists. split; [reflexivity|].
      rewrite displayResults_none. split; [discriminate|].
      intros Hnone. exfalso. apply Hsome. intros e He.
      destruct (Hnone e (proj2 (Hst e) He)) as [H1 [H2 _]]. now split.
    + intros tokenizer. reflexivity.
Qed.

End Answers.

(** On the sample tree the inflected form that no entry has: with a
    tokenizer that throws the query throws, and nothing is printed. *)
Lemma query_outcome_witness :
  exists s,
    loadDictionaries (lib := Sample.library) (lit "dictionaries") Sample.root start_run = Normal s
    /\ Display.answer (lib := Sample.library) (this s) (fun _ => Throw (Error (lit "tokenize")))
         Sample.hashitta = Throw (Error (lit "tokenize"))
    /\ exists lines,
         Display.answer (lib := Sample.library) (this s)
           (fun text => Ok (Sample.tokenizer_to (lit "hashiru") text)) Sample.hashitta = Ok lines
         /\ (lines = [lit "No results found."] <->
             forall e, stored s e ->
               term e <> JStr Sample.hashitta /\ reading e <> JStr Sample.hashitta
               /\ term e <> JStr (getBasicForm
                                    (fun _ => Sample.tokenizer_to (lit "hashiru") Sample.hashitta)
                                    Sample.hashitta)
               /\ reading e <> JStr (getBasicForm
                                       (fun _ => Sample.tokenizer_to (lit "hashiru") Sample.hashitta)
                                       Sample.hashitta)).
Proof.
  set (s := state_of (loadDictionaries (lib := Sample.library) (lit "dictionaries")
                        Sample.root start_run)).
  assert (H : loadDictionaries (lib := Sample.library) (lit "dictionaries") Sample.root start_run
              = Normal s) by (vm_compute; reflexivity).
  exists s. split; [exact H|]. split.
  - vm_compute. reflexivity.
  - exact (proj1 (proj2 (proj2 (query_outcome (lib := Sample.library) _ _ s H
                                  (fun text => Ok (Sample.tokenizer_to (lit "hashiru") text))
                                  Sample.hashitta)))
             (Sample.tokenizer_to (lit "hashiru") Sample.hashitta) eq_refl).
Defined.

End IndexLaws.

(** ** More on the two loaders *)

Module LoaderLaws.
Import JS Notions Derived Loops.

Section WithLibrary.
Context {lib : Library}.

Lemma filter_idem {A} (p : A -> bool) (l : list A) :
  List.filter p (List.filter p l) = List.filter p l.
Proof.
  induction l as [|x rest IH]; [reflexivity|]. simpl.
  destruct (p x) eqn:Hx; [|exact IH]. simpl. now rewrite Hx, IH.
Qed.

Lemma class_turn_pruned dir s name files :
  Searcher.load_collection dir s (name, Directory (List.filter Searcher.isJsonFile files))
  = Searcher.load_collection dir s (name, Directory files).
Proof. unfold Searcher.load_collection. simpl. now rewrite filter_idem. Qed.

Lemma class_loop_pruned dir root s :
  forOf (Searcher.load_collection dir) (prune root) s
  = forOf (Searcher.load_collection dir) root s.
Proof.
  revert s. induction root as [|[name entry] rest IH]; intros s; [reflexivity|].
  unfold prune. simpl flat_map. fold (prune rest). destruct entry as [files|].
  - simpl app. simpl forOf. rewrite class_turn_pruned.
    destruct (Searcher.load_collection dir s (name, Directory files)); [apply IH|reflexivity].
  - simpl app. simpl forOf. apply IH.
Qed.

Lemma functional_turn_pruned dictionaryMap name files :
  Functional.load_collection dictionaryMap
    (name, Directory (List.filter Searcher.isJsonFile files))
  = Functional.load_collection dictionaryMap (name, Directory files).
Proof.
  unfold Functional.load_collection. simpl.
  change Functional.isJsonFile with Searcher.isJsonFile. now rewrite filter_idem.
Qed.

Lemma functional_loop_pruned dictionaryMap root :
  Functional.load_collections dictionaryMap (prune root)
  = Functional.load_collections dictionaryMap root.
Proof.
  revert dictionaryMap. induction root as [|[name entry] rest IH]; intros dictionaryMap;
    [reflexivity|].
  unfold prune. simpl flat_map. fold (prune rest). destruct entry as [files|].
  - simpl app. simpl Functional.load_collections. rewrite functional_turn_pruned.
    destruct (Functional.load_collection dictionaryMap (name, Directory files));
      cbn [mbind result_bind]; [apply IH|reflexivity].
  - simpl app. simpl Functional.load_collections. cbn [mbind result_bind]. apply IH.
Qed.

(** Neither loader looks at what is not a [.json] file of a directory of
    the tree: the load of a tree, from any state, is the load of the tree
    without its plain files and without the other files of its
    directories. *)
Theorem loaders_read_json_files_of_directories (dir : jsstring) (root : Root) (s : Searcher.Run) :
  Searcher.loadDictionaries dir (prune root) s = Searcher.loadDictionaries dir root s
  /\ Functional.loadDictionaries (prune root) = Functional.loadDictionaries root.
Proof.
  split.
  - unfold Searcher.loadDictionaries. now rewrite class_loop_pruned.
  - unfold Functional.loadDictionaries. now rewrite functional_loop_pruned.
Qed.

(** *** The map of the functional loader *)

Lemma concat_entries termBank obj :
  Functional.concat termBank obj = termBank ++ Searcher.entries_of obj.
Proof. destruct obj; reflexivity. Qed.

Lemma read_files_ok termBank files :
  (forall file, In file files -> JSON_parse (fileData file) <> None) ->
  Functional.read_files termBank files
  = Ok (termBank ++ flat_map (fun file =>
                      match JSON_parse (fileData file) with
                      | Some obj => Searcher.entries_of obj
                      | None => []
                      end) files).
Proof.
  revert termBank. induction files as [|file rest IH]; intros termBank Hall; simpl.
  - now rewrite app_nil_r.
  - unfold Functional.read_file at 1.
    destruct (JSON_parse (fileData file)) as [obj|] eqn:Hfile;
      [|exfalso; now apply (Hall file (or_introl eq_refl))].
    cbn [mbind result_bind]. rewrite IH by (intros; apply Hall; now right).
    now rewrite concat_entries, app_assoc.
Qed.

Lemma Map_set_fresh {V} k (v : V) m :
  ~ In k (List.map fst m) -> Functional.Map_set k v m = m ++ [(k, v)].
Proof.
  induction m as [|[k' v'] rest IH]; intros Hk; [reflexivity|]. simpl.
  unfold jsstring_eqb. case_bool_decide as Heq.
  - exfalso. apply Hk. left. exact Heq.
  - rewrite IH; [reflexivity|]. intros H. apply Hk. now right.
Qed.

Lemma load_collections_ok dictionaryMap root :
  (forall name files file,
     In (name, files) (directories root) -> In file files ->
     Functional.isJsonFile file = true -> JSON_parse (fileData file) <> None) ->
  List.NoDup (List.map fst dictionaryMap ++ List.map fst (directories root)) ->
  Functional.load_collections dictionaryMap root
  = Ok (dictionaryMap ++ List.map (fun d => (fst d, bank (snd d))) (directories root)).
Proof.
  revert dictionaryMap. induction root as [|[name entry] rest IH]; intros dictionaryMap Hall Hnd.
  - simpl. now rewrite app_nil_r.
  - simpl. unfold Functional.load_collection. simpl fst. simpl snd.
    destruct entry as [files|].
    + rewrite read_files_ok.
      2:{ intros file Hfile. apply filter_In in Hfile as [Hfile Hjson].
          apply (Hall name files file); [now left|exact Hfile|exact Hjson]. }
      cbn [mbind result_bind]. simpl directories in Hnd |- *. simpl in Hnd.
      rewrite Map_set_fresh.
      2:{ apply NoDup_remove_2 in Hnd. intros H. apply Hnd. apply in_app_iff. now left. }
      rewrite IH.
      * simpl. now rewrite <- app_assoc.
      * intros n fs f Hn. apply (Hall n fs f). simpl. now right.
      * rewrite List.map_app. simpl. rewrite <- app_assoc. simpl.
        exact Hnd.
    + cbn [mbind result_bind]. apply IH; [|exact Hnd].
      intros n fs f Hn. apply (Hall n fs f). exact Hn.
Qed.

Lemma bank_spec files raw :
  In raw (bank files) <->
  exists file obj,
    In file files /\ Functional.isJsonFile file = true
    /\ JSON_parse (fileData file) = Some obj /\ In raw (Searcher.entries_of obj).
Proof.
  unfold bank. rewrite in_flat_map. split.
  - intros [file [Hfile Hraw]]. apply filter_In in Hfile as [Hfile Hjson].
    destruct (JSON_parse (fileData file)) as [obj|] eqn:Hparse; [|destruct Hraw].
    exists file, obj. auto.
  - intros [file [obj [Hfile [Hjson [Hparse Hraw]]]]]. exists file. split.
    + apply filter_In. now split.
    + now rewrite Hparse.
Qed.

(** When every [.json] file of every directory is valid JSON (and no two
    directories have one name, as in a listing of a directory), the
    functional loader returns and logs nothing; its map has the directories
    of the tree, in the order of the tree, and the term bank of a directory
    holds exactly the records of its [.json] files, an array giving its
    items and any other value giving itself. *)
Theorem functional_load_result (root : Root) :
  (forall name files file,
     In (name, files) (directories root) -> In file files ->
     Functional.isJsonFile file = true -> JSON_parse (fileData file) <> None) ->
  List.NoDup (List.map fst (directories root)) ->
  exists dictionaryMap,
    Functional.loadDictionaries root = ([], Ok dictionaryMap)
    /\ List.map fst dictionaryMap = List.map fst (directories root)
    /\ forall name files,
         In (name, files) (directories root) ->
         exists termBank,
           In (name, termBank) dictionaryMap
           /\ forall raw,
                In raw termBank <->
                exists file obj,
                  In file files /\ Functional.isJsonFile file = true
                  /\ JSON_parse (fileData file) = Some obj
                  /\ In raw (Searcher.entries_of obj).
Proof.
  intros Hall Hnd. unfold Functional.loadDictionaries.
  rewrite (load_collections_ok [] root Hall Hnd). simpl app.
  eexists. split; [reflexivity|]. split.
  - rewrite List.map_map. reflexivity.
  - intros name files Hdir. exists (bank files). split.
    + apply in_map_iff. exists (name, files). now split.
    + intros raw. apply bank_spec.
Qed.

End WithLibrary.

Lemma functional_load_result_witness :
  exists dictionaryMap,
    Functional.loadDictionaries (lib := Sample.library)
      [ (lit "jmdict", Directory [Sample.file "a.json" Sample.good_text;
                                  Sample.file "notes.txt" Sample.bad_text;
                                  Sample.file "c.json" Sample.other_text]);
        (lit "README", NotDirectory); (lit "empty", Directory []) ]
    = ([], Ok dictionaryMap)
    /\ List.map fst dictionaryMap = [lit "jmdict"; lit "empty"].
Proof.
  destruct (functional_load_result (lib := Sample.library)
              [ (lit "jmdict", Directory [Sample.file "a.json" Sample.good_text;
                                          Sample.file "notes.txt" Sample.bad_text;
                                          Sample.file "c.json" Sample.other_text]);
                (lit "README", NotDirectory); (lit "empty", Directory []) ])
    as [dictionaryMap [Hload [Hnames _]]].
  - intros name files file Hdir Hfile Hjson. simpl in Hdir.
    destruct Hdir as [[= <- <-]|[[= <- <-]|[]]]; [|destruct Hfile].
    destruct Hfile as [<-|[<-|[<-|[]]]]; vm_compute; discriminate.
  - vm_compute. repeat constructor; simpl; intuition discriminate.
  - exists dictionaryMap. split; [exact Hload|exact Hnames].
Defined.

Lemma functional_load_rejects_witness :
  In (lit "jmdict", Directory [Sample.file "a.json" Sample.good_text;
                               Sample.file "b.json" Sample.bad_text])
     [(lit "jmdict", Directory [Sample.file "a.json" Sample.good_text;
                                Sample.file "b.json" Sample.bad_text])]
  /\ Functional.loadDictionaries (lib := Sample.library)
       [(lit "jmdict", Directory [Sample.file "a.json" Sample.good_text;
                                  Sample.file "b.json" Sample.bad_text])]
     = ([LogError (lit "Error loading dictionaries:")], Throw SyntaxError).
Proof.
  split; [now left|].
  apply (Resolver.functional_load_rejects (lib := Sample.library) _ (lit "jmdict")
           [Sample.file "a.json" Sample.good_text; Sample.file "b.json" Sample.bad_text]
           (Sample.file "b.json" Sample.bad_text)).
  - now left.
  - right. now left.
  - reflexivity.
  - reflexivity.
Defined.

End LoaderLaws.

(** ** More on the query loop of the functional implementation *)

Module ResolverLaws.
Import JS Functional Notions Derived Loops Resolver.

Lemma matches_total key entry :
  indexable entry = true -> matches key entry = Ok (is_match key entry).
Proof.
  intros Hidx. unfold is_match.
  destruct entry; try discriminate; unfold matches; simpl get_index; cbn [mbind result_bind];
    match goal with |- context [if ?c then _ else _] => destruct c end; reflexivity.
Qed.

(** On a term bank without [null] the filter does not throw and keeps the
    hits. *)
Lemma filterR_hits key termBank :
  (forall entry, In entry termBank -> indexable entry = true) ->
  filterR (matches key) termBank = Ok (hits key termBank).
Proof.
  induction termBank as [|x rest IH]; intros Hall; [reflexivity|]. simpl.
  rewrite (matches_total key x) by (apply Hall; now left). cbn [mbind result_bind].
  rewrite IH by (intros; apply Hall; now right). cbn [mbind result_bind].
  unfold hits. simpl. now destruct (is_match key x).
Qed.

Lemma hits_readable key termBank r :
  (forall entry, In entry termBank -> indexable entry = true) ->
  In r (hits key termBank) -> exists v, get_index r 5 = Ok v.
Proof.
  intros Hall Hr. apply filter_In in Hr as [Hr _]. specialize (Hall r Hr).
  destruct r; try discriminate; simpl; eauto.
Qed.

(** The turn of a collection that has exact matches. *)
Lemma turn_exact build searchTerm s collection :
  (forall entry, In entry (snd collection) -> indexable entry = true) ->
  needs_lemma searchTerm collection = false ->
  processCollection build searchTerm s collection
  = Normal (emit (shown (fst collection) (hits searchTerm (snd collection))) s).
Proof.
  intros Hall Hneeds. unfold processCollection. rewrite (filterR_hits _ _ Hall).
  unfold needs_lemma in Hneeds.
  destruct (hits searchTerm (snd collection)) as [|r rs] eqn:Hhits; [discriminate|].
  apply show_results_normal. intros x Hx. rewrite <- Hhits in Hx.
  exact (hits_readable _ _ _ Hall Hx).
Qed.

(** The turn of a collection without exact matches when [basicForm] holds
    a lemma form that is not empty. *)
Lemma turn_lemma build searchTerm form s collection :
  (forall entry, In entry (snd collection) -> indexable entry = true) ->
  needs_lemma searchTerm collection = true ->
  basicForm s = Some form -> form <> [] ->
  processCollection build searchTerm s collection
  = Normal (emit (collection_lines searchTerm form collection) s).
Proof.
  intros Hall Hneeds Hform Hne. unfold processCollection, collection_lines.
  rewrite (filterR_hits _ _ Hall). unfold needs_lemma in Hneeds.
  destruct (hits searchTerm (snd collection)) as [|r rs]; [|discriminate].
  unfold ensureBasicForm. rewrite Hform.
  assert (notBasicForm (Some form) = false) as -> by now destruct form.
  rewrite Hform, (filterR_hits _ _ Hall).
  destruct (hits form (snd collection)) as [|r rs] eqn:Hhits; [now rewrite emit_nil|].
  apply show_results_normal. intros x Hx. rewrite <- Hhits in Hx.
  exact (hits_readable _ _ _ Hall Hx).
Qed.

(** The turn of the first collection without exact matches. *)
Lemma turn_first build searchTerm form s collection :
  (forall entry, In entry (snd collection) -> indexable entry = true) ->
  needs_lemma searchTerm collection = true ->
  basicForm s = None ->
  getBasicForm build searchTerm = Ok form ->
  processCollection build searchTerm s collection
  = Normal (emit (collection_lines searchTerm form collection)
              {| basicForm := Some form; trace := trace s ++ [GetBasicForm searchTerm] |}).
Proof.
  intros Hall Hneeds Hnone Hget. unfold processCollection, collection_lines.
  rewrite (filterR_hits _ _ Hall). unfold needs_lemma in Hneeds.
  destruct (hits searchTerm (snd collection)) as [|r rs]; [|discriminate].
  unfold ensureBasicForm. rewrite Hnone. cbn [notBasicForm]. rewrite Hget.
  cbn [basicForm trace emit]. rewrite (filterR_hits _ _ Hall).
  destruct (hits form (snd collection)) as [|r rs] eqn:Hhits; [now rewrite emit_nil|].
  apply show_results_normal. intros x Hx. rewrite <- Hhits in Hx.
  exact (hits_readable _ _ _ Hall Hx).
Qed.

Lemma loop_with_lemma build searchTerm form dictionaryMap s :
  (forall collection, In collection dictionaryMap ->
     forall entry, In entry (snd collection) -> indexable entry = true) ->
  basicForm s = Some form -> form <> [] ->
  forOf (processCollection build searchTerm) dictionaryMap s
  = Normal (emit (flat_map (collection_lines searchTerm form) dictionaryMap) s).
Proof.
  revert s. induction dictionaryMap as [|c rest IH]; intros s Hall Hform Hne; simpl.
  - now rewrite emit_nil.
  - assert (Hturn : processCollection build searchTerm s c
                    = Normal (emit (collection_lines searchTerm form c) s)).
    { destruct (needs_lemma searchTerm c) eqn:Hneeds.
      - apply turn_lemma; auto. apply Hall. now left.
      - rewrite turn_exact; auto; [|apply Hall; now left].
        unfold collection_lines. unfold needs_lemma in Hneeds.
        now destruct (hits searchTerm (snd c)). }
    rewrite Hturn, IH; [now rewrite emit_emit| |exact Hform|exact Hne].
    intros; eapply Hall; [right|]; eassumption.
Qed.

Lemma calls_collection_lines searchTerm form collection :
  calls (collection_lines searchTerm form collection) = 0%nat.
Proof.
  apply calls_none. intros ev Hev. unfold collection_lines in Hev.
  destruct (hits searchTerm (snd collection)).
  - destruct (hits form (snd collection)); [destruct Hev|exact (shown_only_logs _ _ _ Hev)].
  - exact (shown_only_logs _ _ _ Hev).
Qed.

Lemma printed_app a b : printed (a ++ b) = printed a ++ printed b.
Proof. unfold printed. apply List.filter_app. Qed.

Lemma printed_logs events :
  (forall ev, In ev events -> exists line, ev = ConsoleLog line) -> printed events = events.
Proof.
  induction events as [|ev evs IH]; intros Hall; [reflexivity|].
  destruct (Hall ev (or_introl eq_refl)) as [line ->]. unfold printed. simpl. f_equal.
  apply IH. intros ev' Hev'. apply Hall. now right.
Qed.

Lemma lines_only_logs searchTerm form dictionaryMap ev :
  In ev (flat_map (collection_lines searchTerm form) dictionaryMap) ->
  exists line, ev = ConsoleLog line.
Proof.
  intros Hev. apply in_flat_map in Hev as [c [_ Hev]]. unfold collection_lines in Hev.
  destruct (hits searchTerm (snd c)).
  - destruct (hits form (snd c)); [destruct Hev|exact (shown_only_logs _ _ _ Hev)].
  - exact (shown_only_logs _ _ _ Hev).
Qed.

Lemma loop_without_lemma build searchTerm form dictionaryMap s :
  getBasicForm build searchTerm = Ok form -> form <> [] ->
  (forall collection, In collection dictionaryMap ->
     forall entry, In entry (snd collection) -> indexable entry = true) ->
  basicForm s = None ->
  exists s',
    forOf (processCollection build searchTerm) dictionaryMap s = Normal s'
    /\ printed (trace s')
       = printed (trace s) ++ flat_map (collection_lines searchTerm form) dictionaryMap
    /\ calls (trace s')
       = (calls (trace s) + if existsb (needs_lemma searchTerm) dictionaryMap then 1 else 0)%nat
    /\ basicForm s'
       = if existsb (needs_lemma searchTerm) dictionaryMap then Some form else None.
Proof.
  intros Hget Hne. revert s.
  induction dictionaryMap as [|c rest IH]; intros s Hall Hnone; simpl.
  - exists s. rewrite app_nil_r, Nat.add_0_r. auto.
  - assert (Hc : forall entry, In entry (snd c) -> indexable entry = true)
      by (apply Hall; now left).
    assert (Hrest : forall collection, In collection rest ->
              forall entry, In entry (snd collection) -> indexable entry = true)
      by (intros; eapply Hall; [right|]; eassumption).
    destruct (needs_lemma searchTerm c) eqn:Hneeds; simpl.
    + set (s1 := {| basicForm := Some form; trace := trace s ++ [GetBasicForm searchTerm] |}).
      pose proof (turn_first build searchTerm form s c Hc Hneeds Hnone Hget) as Hturn.
      fold s1 in Hturn.
      rewrite Hturn, (loop_with_lemma build searchTerm form rest
                        (emit (collection_lines searchTerm form c) s1) Hrest eq_refl Hne).
      eexists. split; [reflexivity|]. cbn [basicForm trace emit s1].
      assert (Hc_logs : forall ev, In ev (collection_lines searchTerm form c) ->
                exists line, ev = ConsoleLog line).
      { intros ev Hev. apply (lines_only_logs searchTerm form [c]). simpl.
        now rewrite app_nil_r. }
      rewrite !printed_app, !calls_app.
      rewrite (printed_logs _ Hc_logs), (printed_logs _ (lines_only_logs _ _ _)).
      rewrite (calls_none _ Hc_logs), (calls_none _ (lines_only_logs _ _ _)).
      change (printed [GetBasicForm searchTerm]) with (@nil Event).
      change (calls [GetBasicForm searchTerm]) with 1%nat.
      rewrite app_nil_r, <- app_assoc.
      split; [reflexivity|]. split; [lia|reflexivity].
    + rewrite (turn_exact build searchTerm s c Hc Hneeds).
      destruct (IH (emit (shown (fst c) (hits searchTerm (snd c))) s) Hrest Hnone)
        as [s' [Hrun [Hprinted [Hcalls Hform]]]].
      exists s'. split; [exact Hrun|]. cbn [trace emit] in Hprinted, Hcalls.
      assert (Hlines : collection_lines searchTerm form c
                       = shown (fst c) (hits searchTerm (snd c))).
      { unfold collection_lines. unfold needs_lemma in Hneeds.
        now destruct (hits searchTerm (snd c)). }
      split; [|split; [|exact Hform]].
      * rewrite Hprinted, printed_app, Hlines, <- app_assoc. f_equal. f_equal.
        apply printed_logs. intros ev Hev. exact (shown_only_logs _ _ _ Hev).
      * rewrite Hcalls, calls_app.
        rewrite (calls_none (shown _ _)) by (intros ev Hev; exact (shown_only_logs _ _ _ Hev)).
        lia.
Qed.

(** One query over term banks without [null], with a tokenizer whose basic
    form for the search term is not the empty string: the query ends
    normally; the console shows, collection after collection in the order
    of the map, the exact matches of a collection that has some, else its
    matches of the basic form, else nothing; [getBasicForm] is called once
    when some collection has no exact match and not at all otherwise. *)
Theorem query_prints_each_collection build dictionaryMap searchTerm form :
  getBasicForm build searchTerm = Ok form -> form <> [] ->
  (forall collection, In collection dictionaryMap ->
     forall entry, In entry (snd collection) -> indexable entry = true) ->
  exists s,
    processQuery build dictionaryMap searchTerm = Normal s
    /\ printed (trace s) = flat_map (collection_lines searchTerm form) dictionaryMap
    /\ calls (trace s)
       = (if existsb (needs_lemma searchTerm) dictionaryMap then 1 else 0)%nat
    /\ basicForm s
       = if existsb (needs_lemma searchTerm) dictionaryMap then Some form else None.
Proof.
  intros Hget Hne Hall. unfold processQuery.
  destruct (loop_without_lemma build searchTerm form dictionaryMap start_query
              Hget Hne Hall eq_refl) as [s [Hrun [Hprinted [Hcalls Hform]]]].
  exists s. auto.
Qed.

Lemma query_prints_each_collection_witness :
  exists s,
    processQuery (Ok (Sample.tokenizer_to Sample.neko_kanji))
      (Sample.dictionaryMap ++ [(lit "other", [Sample.inu])]) Sample.hashitta = Normal s
    /\ printed (trace s)
       = flat_map (collection_lines Sample.hashitta Sample.neko_kanji)
           (Sample.dictionaryMap ++ [(lit "other", [Sample.inu])])
    /\ calls (trace s) = 1%nat.
Proof.
  destruct (query_prints_each_collection (Ok (Sample.tokenizer_to Sample.neko_kanji))
              (Sample.dictionaryMap ++ [(lit "other", [Sample.inu])])
              Sample.hashitta Sample.neko_kanji eq_refl)
    as [s [Hrun [Hprinted [Hcalls _]]]].
  - discriminate.
  - intros collection Hc entry He. simpl in Hc.
    destruct Hc as [<-|[<-|[<-|[<-|[]]]]]; simpl in He;
      repeat (destruct He as [<-|He]; [reflexivity|]); destruct He.
  - exists s. split; [exact Hrun|]. split; [exact Hprinted|exact Hcalls].
Defined.

Lemma loop_all_exact build searchTerm dictionaryMap s :
  (forall collection, In collection dictionaryMap ->
     forall entry, In entry (snd collection) -> indexable entry = true) ->
  (forall collection, In collection dictionaryMap -> needs_lemma searchTerm collection = false) ->
  forOf (processCollection build searchTerm) dictionaryMap s
  = Normal (emit (flat_map (fun collection =>
                     shown (fst collection) (hits searchTerm (snd collection)))
                   dictionaryMap) s).
Proof.
  revert s. induction dictionaryMap as [|c rest IH]; intros s Hall Hexact; simpl.
  - now rewrite emit_nil.
  - rewrite turn_exact; [|apply Hall; now left|apply Hexact; now left].
    rewrite IH; [now rewrite emit_emit| |].
    + intros; eapply Hall; [right|]; eassumption.
    + intros; apply Hexact; now right.
Qed.

(** The lemma form is computed lazily: when every collection has an exact
    match (and no term bank holds [null]), the query prints the exact
    matches of the collections in order and neither calls [getBasicForm]
    nor sets [basicForm], whatever the tokenizer would answer, even one
    that fails. *)
Theorem no_lemma_when_all_match build dictionaryMap searchTerm :
  (forall collection, In collection dictionaryMap ->
     forall entry, In entry (snd collection) -> indexable entry = true) ->
  (forall collection, In collection dictionaryMap -> needs_lemma searchTerm collection = false) ->
  processQuery build dictionaryMap searchTerm
  = Normal {| basicForm := None;
              trace := flat_map (fun collection =>
                                   shown (fst collection) (hits searchTerm (snd collection)))
                         dictionaryMap |}.
Proof.
  intros Hall Hexact. unfold processQuery. now rewrite loop_all_exact.
Qed.

Lemma no_lemma_when_all_match_witness :
  processQuery (Throw (Error (lit "no dictionary")))
    [(lit "jmdict", [Sample.neko; Sample.inu]); (lit "other", [Sample.neko])] Sample.neko_kana
  = Normal {| basicForm := None;
              trace := flat_map (fun collection =>
                                   shown (fst collection) (hits Sample.neko_kana (snd collection)))
                         [(lit "jmdict", [Sample.neko; Sample.inu]); (lit "other", [Sample.neko])] |}.
Proof.
  apply no_lemma_when_all_match.
  - intros collection Hc entry He. simpl in Hc.
    destruct Hc as [<-|[<-|[]]]; simpl in He;
      repeat (destruct He as [<-|He]; [reflexivity|]); destruct He.
  - intros collection Hc. simpl in Hc. destruct Hc as [<-|[<-|[]]]; reflexivity.
Defined.

(** When [getBasicForm] fails, the query stops at the first collection
    without an exact match: the results of the collections before it are
    on the console, [getBasicForm] was called once, and the collections
    after it are not searched, not even for exact matches. *)
Theorem query_stops_when_lemma_fails build searchTerm err before collection after :
  getBasicForm build searchTerm = Throw err ->
  (forall c, In c (before ++ [collection]) ->
     forall entry, In entry (snd c) -> indexable entry = true) ->
  (forall c, In c before -> needs_lemma searchTerm c = false) ->
  needs_lemma searchTerm collection = true ->
  processQuery build (before ++ collection :: after) searchTerm
  = Abrupt err
      {| basicForm := None;
         trace := flat_map (fun c => shown (fst c) (hits searchTerm (snd c))) before
                  ++ [GetBasicForm searchTerm] |}.
Proof.
  intros Hget Hall Hexact Hneeds. unfold processQuery. rewrite forOf_app.
  rewrite loop_all_exact; [|intros; eapply Hall; [apply in_app_iff; left|]; eassumption|exact Hexact].
  simpl forOf. unfold processCollection.
  rewrite filterR_hits by (apply Hall; apply in_app_iff; right; now left).
  unfold needs_lemma in Hneeds.
  destruct (hits searchTerm (snd collection)); [|discriminate].
  unfold ensureBasicForm. cbn [basicForm emit start_query notBasicForm]. rewrite Hget.
  reflexivity.
Qed.

Lemma query_stops_when_lemma_fails_witness :
  processQuery (Ok Sample.tokenizer_none)
    ([(lit "jmdict", [Sample.neko; Sample.inu])] ++ (lit "names", []) :: [(lit "other", [Sample.neko])])
    Sample.neko_kana
  = Abrupt TypeError
      {| basicForm := None;
         trace := flat_map (fun c => shown (fst c) (hits Sample.neko_kana (snd c)))
                    [(lit "jmdict", [Sample.neko; Sample.inu])]
                  ++ [GetBasicForm Sample.neko_kana] |}.
Proof.
  apply query_stops_when_lemma_fails.
  - reflexivity.
  - intros c Hc entry He. simpl in Hc.
    destruct Hc as [<-|[<-|[]]]; simpl in He;
      repeat (destruct He as [<-|He]; [reflexivity|]); destruct He.
  - intros c Hc. simpl in Hc. destruct Hc as [<-|[]]. reflexivity.
  - reflexivity.
Defined.

Lemma lemma_once_when_not_empty_witness :
  (forall form, getBasicForm (Ok (Sample.tokenizer_to (lit "hashiru"))) Sample.hashitta = Ok form ->
                form <> [])
  /\ (calls (trace (state_of (processQuery (Ok (Sample.tokenizer_to (lit "hashiru")))
                                Sample.dictionaryMap Sample.hashitta))) <= 1)%nat.
Proof.
  assert (H : forall form,
            getBasicForm (Ok (Sample.tokenizer_to (lit "hashiru"))) Sample.hashitta = Ok form ->
            form <> []).
  { intros form Hform. vm_compute in Hform. injection Hform as <-. discriminate. }
  split; [exact H|].
  exact (lemma_once_when_not_empty (Ok (Sample.tokenizer_to (lit "hashiru")))
           Sample.dictionaryMap Sample.hashitta H).
Defined.

(** The two implementations have one notion of exact match: a record is
    kept by the filter of the functional query for a key exactly when the
    entry [_formatEntry] makes of it has the key as its term or as its
    reading, the keys under which the class-based index files it. *)
Theorem same_notion_of_match {lib : Library} (rawEntry : JSValue) (r : nat)
    (entry : Searcher.DictionaryEntry) (key : jsstring) :
  Searcher._formatEntry rawEntry r = Ok entry ->
  matches key rawEntry
  = Ok (keyed (Searcher.term entry) key || keyed (Searcher.reading entry) key).
Proof.
  intros Hfmt. destruct (Index.formatEntry_fields _ _ _ Hfmt) as [_ [H0 H1]].
  unfold matches. rewrite H0. cbn [mbind result_bind].
  assert (Hkey : forall v, is_key v key = keyed v key) by (intros v; now destruct v).
  rewrite Hkey. destruct (keyed (Searcher.term entry) key); [reflexivity|].
  rewrite H1. cbn [mbind result_bind]. now rewrite Hkey.
Qed.

Lemma same_notion_of_match_witness :
  exists entry,
    Searcher._formatEntry (lib := Sample.library) Sample.neko 0 = Ok entry
    /\ matches Sample.neko_kana Sample.neko
       = Ok (keyed (Searcher.term entry) Sample.neko_kana
             || keyed (Searcher.reading entry) Sample.neko_kana).
Proof.
  eexists. split; [reflexivity|].
  exact (same_notion_of_match (lib := Sample.library) Sample.neko 0 _ Sample.neko_kana eq_refl).
Defined.

(** *** The lemma form in one query *)

(** C3. Within one query the lemma form is computed at most once, lazily,
    and kept for the collections that follow. Here for every search term
    whose lemma form, when [getBasicForm] gives one, is not the empty
    string (the basic form of a kuromoji token is a dictionary form or an
    asterisk). Whatever the map holds and however the query ends,
    [getBasicForm] is called at most once. Over term banks without [null]:
    when every collection has an exact match it is not called at all and
    [basicForm] stays [null]; otherwise it is called exactly once, in the
    turn of the first collection that has no exact match, after the exact
    matches of the collections in front of it are printed, and from then
    on [basicForm] holds the lemma form and every collection prints on its
    own account: its exact matches when it has some, else its matches of
    the kept lemma form, so an exact match in one collection takes no
    lemma lookup from another. *)
Theorem C3_lemma_form_computed_once build searchTerm :
  getBasicForm build searchTerm <> Ok [] ->
  (forall dictionaryMap,
     (calls (trace (state_of (processQuery build dictionaryMap searchTerm))) <= 1)%nat)
  /\ (forall dictionaryMap,
        (forall collection, In collection dictionaryMap ->
           forall entry, In entry (snd collection) -> indexable entry = true) ->
        (forall collection, In collection dictionaryMap ->
           needs_lemma searchTerm collection = false) ->
        processQuery build dictionaryMap searchTerm
        = Normal {| basicForm := None;
                    trace := flat_map (fun collection =>
                                         shown (fst collection) (hits searchTerm (snd collection)))
                               dictionaryMap |})
  /\ (forall form before collection after,
        getBasicForm build searchTerm = Ok form ->
        (forall c, In c (before ++ collection :: after) ->
           forall entry, In entry (snd c) -> indexable entry = true) ->
        (forall c, In c before -> needs_lemma searchTerm c = false) ->
        needs_lemma searchTerm collection = true ->
        processQuery build (before ++ collection :: after) searchTerm
        = Normal {| basicForm := Some form;
                    trace := flat_map (fun c => shown (fst c) (hits searchTerm (snd c))) before
                             ++ [GetBasicForm searchTerm]
                             ++ flat_map (collection_lines searchTerm form)
                                  (collection :: after) |}
        /\ calls (flat_map (fun c => shown (fst c) (hits searchTerm (snd c))) before
                  ++ [GetBasicForm searchTerm]
                  ++ flat_map (collection_lines searchTerm form) (collection :: after))
           = 1%nat).
Proof.
  intros Hform.
  assert (Hne : forall form, getBasicForm build searchTerm = Ok form -> form <> [])
    by (intros form Hget ->; exact (Hform Hget)).
  refine (conj _ (conj _ _)).
  - intros dictionaryMap. unfold processQuery.
    pose proof (forOf_ends (processCollection build searchTerm) memo_ok
                  (fun s => (calls (trace s) <= 1)%nat)
                  (fun s c Hs => processCollection_memo build searchTerm s c Hne Hs)
                  dictionaryMap start_query (or_introl eq_refl)) as H.
    destruct (forOf (processCollection build searchTerm) dictionaryMap start_query); simpl.
    + destruct H as [H|[H _]]; lia.
    + exact H.
  - intros dictionaryMap Hall Hexact. unfold processQuery. now rewrite loop_all_exact.
  - intros form before collection after Hget Hall Hexact Hneeds.
    assert (Hlogs : forall c ev, In ev (shown (fst c) (hits searchTerm (snd c))) ->
                                 exists line, ev = ConsoleLog line)
      by (intros c ev Hev; exact (shown_only_logs _ _ _ Hev)).
    split.
    + unfold processQuery. rewrite forOf_app.
      rewrite loop_all_exact;
        [|intros c Hc; apply Hall, in_app_iff; now left|exact Hexact].
      cbn [forOf].
      rewrite (turn_first build searchTerm form _ collection);
        [|apply Hall, in_app_iff; right; now left|exact Hneeds|reflexivity|exact Hget].
      rewrite (loop_with_lemma build searchTerm form after);
        [|intros c Hc; apply Hall, in_app_iff; right; now right|reflexivity|exact (Hne _ Hget)].
      unfold emit. cbn [basicForm trace flat_map app]. f_equal. f_equal.
      now rewrite <- !app_assoc.
    + rewrite !calls_app.
      rewrite (calls_none (flat_map _ before)).
      * rewrite (calls_none (flat_map _ (collection :: after))); [reflexivity|].
        apply lines_only_logs.
      * intros ev Hev. apply in_flat_map in Hev as [c [_ Hev]]. exact (Hlogs c ev Hev).
Qed.

(** The inflected form no sample collection has, with a tokenizer whose
    basic form for it is the dictionary form: three collections without an
    exact match, one call. *)
Lemma C3_witness :
  getBasicForm (Ok (Sample.tokenizer_to (lit "hashiru"))) Sample.hashitta <> Ok []
  /\ (calls (trace (state_of (processQuery (Ok (Sample.tokenizer_to (lit "hashiru")))
                                Sample.dictionaryMap Sample.hashitta))) <= 1)%nat
  /\ processQuery (Ok (Sample.tokenizer_to (lit "hashiru")))
       ([] ++ (lit "jmdict", [Sample.neko; Sample.inu])
           :: [(lit "names", []); (lit "kanjidic", [])]) Sample.hashitta
     = Normal {| basicForm := Some (lit "hashiru");
                 trace := [] ++ [GetBasicForm Sample.hashitta]
                          ++ flat_map (collection_lines Sample.hashitta (lit "hashiru"))
                               ((lit "jmdict", [Sample.neko; Sample.inu])
                                :: [(lit "names", []); (lit "kanjidic", [])]) |}.
Proof.
  assert (H : getBasicForm (Ok (Sample.tokenizer_to (lit "hashiru"))) Sample.hashitta <> Ok [])
    by (vm_compute; discriminate).
  refine (conj H (conj _ _)).
  - exact (proj1 (C3_lemma_form_computed_once _ _ H) Sample.dictionaryMap).
  - apply (proj2 (proj2 (C3_lemma_form_computed_once _ _ H)) (lit "hashiru") []
             (lit "jmdict", [Sample.neko; Sample.inu])
             [(lit "names", []); (lit "kanjidic", [])]).
    + reflexivity.
    + intros c Hc entry He. simpl in Hc.
      destruct Hc as [<-|[<-|[<-|[]]]]; simpl in He;
        repeat (destruct He as [<-|He]; [reflexivity|]); destruct He.
    + intros c [].
    + reflexivity.
Defined.

End ResolverLaws.

(** ** More on the definitions of an entry *)

Module DefinitionLaws.
Import JS Searcher Notions Derived FlattenerLaws.

Section WithLibrary.
Context {lib : Library}.

(** What [formatDefinition] does with an object, read off its [content]
    property. *)
Lemma formatDefinition_object props :
  formatDefinition (JObj props)
  = if truthy (get_prop (lit "content") props) then
      match get_prop (lit "content") props with
      | JArr items => join (lit "; ") (List.map formatDefinition items)
      | c => formatDefinition c
      end
    else JSON_stringify (JObj props).
Proof.
  simpl. generalize (JObj props) as whole. intros whole.
  induction props as [|[k c] rest IH]; [reflexivity|].
  simpl get_prop. destruct (jsstring_eqb k (lit "content")); [|exact IH].
  destruct (truthy c); [|reflexivity]. now destruct c.
Qed.

Lemma plain_object props :
  plain (JObj props)
  = truthy (get_prop (lit "content") props)
    && match get_prop (lit "content") props with
       | JArr items => forallb plain items
       | c => plain c
       end.
Proof.
  simpl. induction props as [|[k c] rest IH]; [reflexivity|].
  simpl get_prop. destruct (jsstring_eqb k (lit "content")); [|exact IH].
  now destruct c.
Qed.

Lemma texts_object props :
  texts (JObj props)
  = match get_prop (lit "content") props with
    | JArr [] => [[]]
    | JArr items => flat_map texts items
    | c => texts c
    end.
Proof.
  simpl. induction props as [|[k c] rest IH]; [reflexivity|].
  simpl get_prop. destruct (jsstring_eqb k (lit "content")); [|exact IH].
  now destruct c.
Qed.

Lemma join_app sep (a b : list jsstring) :
  a <> [] -> b <> [] -> join sep (a ++ b) = join sep a ++ sep ++ join sep b.
Proof.
  induction a as [|p rest IH]; [contradiction|]. intros _ Hb.
  destruct rest as [|q rest'].
  - simpl. now destruct b.
  - change ((p :: q :: rest') ++ b) with (p :: (q :: rest') ++ b).
    change (join sep (p :: (q :: rest') ++ b)) with (p ++ sep ++ join sep ((q :: rest') ++ b)).
    rewrite IH by (discriminate || exact Hb).
    change (join sep (p :: q :: rest')) with (p ++ sep ++ join sep (q :: rest')).
    now rewrite <- !app_assoc.
Qed.

Lemma join_flat {A} sep (f : A -> list jsstring) (items : list A) :
  (forall item, In item items -> f item <> []) ->
  join sep (List.map (fun item => join sep (f item)) items) = join sep (flat_map f items).
Proof.
  induction items as [|item rest IH]; intros Hne; [reflexivity|].
  destruct rest as [|next rest'].
  - simpl. now rewrite app_nil_r.
  - change (List.map (fun item => join sep (f item)) (item :: next :: rest'))
      with (join sep (f item) :: List.map (fun item => join sep (f item)) (next :: rest')).
    change (join sep (join sep (f item) :: List.map (fun item => join sep (f item)) (next :: rest')))
      with (join sep (f item) ++ sep
            ++ join sep (List.map (fun item => join sep (f item)) (next :: rest'))).
    rewrite IH by (intros; apply Hne; now right).
    change (flat_map f (item :: next :: rest')) with (f item ++ flat_map f (next :: rest')).
    rewrite join_app; [reflexivity|apply Hne; now left|].
    simpl. intros H. apply app_eq_nil in H as [H _]. apply (Hne next); [right; now left|exact H].
Qed.

Lemma plain_texts def :
  (plain def = true ->
   formatDefinition def = join (lit "; ") (texts def) /\ texts def <> [])
  /\ (forall items, def = JArr items ->
      forall item, In item items -> plain item = true ->
      formatDefinition item = join (lit "; ") (texts item) /\ texts item <> []).
Proof.
  induction def as [| |b|z|s|items IH|props IH] using JSValue_induction;
    (split; [|discriminate || idtac]); try discriminate.
  - intros _. split; [reflexivity|discriminate].
  - intros items' [= <-] item Hitem Hplain. exact (proj1 (IH item Hitem) Hplain).
  - rewrite plain_object, formatDefinition_object, texts_object.
    intros Hplain. apply andb_true_iff in Hplain as [Htruthy Hinner]. rewrite Htruthy.
    destruct (get_prop_in (lit "content") props) as [Hin|Hundef];
      [|rewrite Hundef in Htruthy; discriminate].
    pose proof (IH _ _ Hin) as [Hc Hitems].
    destruct (get_prop (lit "content") props) as [| |b|z|s|items|inner] eqn:Hget;
      try discriminate.
    + exact (Hc Hinner).
    + destruct items as [|first others]; [split; [reflexivity|discriminate]|].
      rewrite forallb_forall in Hinner.
      assert (Hall : forall item, In item (first :: others) ->
                formatDefinition item = join (lit "; ") (texts item) /\ texts item <> []).
      { intros item Hitem. apply (Hitems _ eq_refl item Hitem). now apply Hinner. }
      split.
      * rewrite <- (join_flat (lit "; ") texts) by (intros; now apply Hall).
        f_equal. clear -Hall. induction (first :: others) as [|x xs IHxs]; [reflexivity|].
        simpl. rewrite (proj1 (Hall x (or_introl eq_refl))). f_equal.
        apply IHxs. intros; apply Hall; now right.
      * simpl. intros H. apply app_eq_nil in H as [H _].
        now apply (proj2 (Hall first (or_introl eq_refl))).
    + exact (Hc Hinner).
Qed.

(** A definition made of strings, of objects with a [content] and of
    arrays as contents becomes its leaf strings, from left to right, joined
    by ['; ']: [formatDefinition] unwraps every object, and the result owes
    nothing to [JSON.stringify] or [String]. *)
Theorem plain_definition_is_its_texts (def : JSValue) :
  plain def = true -> formatDefinition def = join (lit "; ") (texts def).
Proof. intros Hplain. exact (proj1 (proj1 (plain_texts def) Hplain)). Qed.

End WithLibrary.

Lemma plain_definition_is_its_texts_witness :
  formatDefinition (lib := Sample.library)
    (JObj [(lit "tag", JStr (lit "ul"));
           (lit "content",
            JArr [JStr (lit "cat");
                  JObj [(lit "content", JObj [(lit "content", JStr (lit "feline"))])];
                  JObj [(lit "content", JArr [JStr (lit "a"); JStr (lit "b")])]])])
  = lit "cat; feline; a; b".
Proof.
  rewrite (plain_definition_is_its_texts (lib := Sample.library)); reflexivity.
Defined.

End DefinitionLaws.

(** ** A [null] record *)

Module NullRecords.
Import JS Notions Derived Loops.

(** A loop that ends abruptly ends with the exception and the state of one
    of its turns. *)
Lemma forOf_abrupt {S A} (body : S -> A -> completion S) xs s e s' :
  forOf body xs s = Abrupt e s' ->
  exists x s1, In x xs /\ body s1 x = Abrupt e s'.
Proof.
  revert s. induction xs as [|x rest IH]; intros s H; [discriminate|].
  simpl in H. destruct (body s x) as [s1|e1 s1] eqn:Hb.
  - destruct (IH s1 H) as [y [t [Hy Ht]]]. exists y, t. split; [now right|exact Ht].
  - injection H as <- <-. exists x, s. split; [now left|exact Hb].
Qed.

Section ClassBased.
Import Searcher Index.
Context {lib : Library}.

Lemma index_entry_throws s entry e s' : index_entry s entry = Abrupt e s' -> e = TypeError.
Proof.
  unfold index_entry. pose proof (NormalizerLaws.formatEntry_outcome entry (created s)) as H.
  destruct (_formatEntry entry (created s)); [discriminate|].
  intros [= <- _]. exact (proj1 H).
Qed.

Lemma load_throws dir root s e s' :
  forOf (load_collection dir) root s = Abrupt e s' -> e = TypeError.
Proof.
  intros H. destruct (forOf_abrupt _ _ _ _ _ H) as [collection [s1 [_ Hc]]].
  unfold load_collection in Hc. destruct (snd collection) as [files|]; [|discriminate].
  destruct (forOf_abrupt _ _ _ _ _ Hc) as [file [s2 [_ Hf]]].
  unfold load_file in Hf. destruct (JSON_parse (fileData file)) as [parsed|]; [|discriminate].
  destruct (forOf_abrupt _ _ _ _ _ Hf) as [entry [s3 [_ He]]].
  exact (index_entry_throws _ _ _ _ He).
Qed.

(** In [src/index.ts] a [null] among the records of a well-formed JSON
    file is not skipped as a malformed file is: [loadDictionaries] throws a
    TypeError, whatever else the tree holds, and the index is not ready
    after it. *)
Theorem null_record_fails_the_load dir root name files file parsed :
  In (name, Directory files) root -> In file files -> isJsonFile file = true ->
  JSON_parse (fileData file) = Some parsed -> In JNull (entries_of parsed) ->
  exists s,
    loadDictionaries dir root start_run = Abrupt TypeError s
    /\ forall searchTerm, findTerm (this s) searchTerm = Throw notLoaded.
Proof.
  intros Hcoll Hfile Hjson Hparse Hnull.
  destruct (loadDictionaries dir root start_run) as [s|e s] eqn:Hload.
  - exfalso. destruct (loaded_normal _ _ _ Hload) as [s' [Hrun _]].
    destruct (forOf_turn (load_collection dir) (fun _ _ => True) (fun _ => I)
                (fun _ _ _ _ _ => I) (fun _ _ _ _ => I) root start_run s' _ Hrun Hcoll)
      as [s1 [s2 [_ [Hc _]]]].
    unfold load_collection in Hc. simpl in Hc.
    assert (Hin : In file (List.filter isJsonFile files)) by (apply filter_In; now split).
    destruct (forOf_turn (load_file _) (fun _ _ => True) (fun _ => I)
                (fun _ _ _ _ _ => I) (fun _ _ _ _ => I) _ s1 s2 _ Hc Hin)
      as [s3 [s4 [_ [Hf _]]]].
    unfold load_file in Hf. rewrite Hparse in Hf.
    destruct (forOf_turn index_entry (fun _ _ => True) (fun _ => I)
                (fun _ _ _ _ _ => I) (fun _ _ _ _ => I) _ s3 s4 _ Hf Hnull)
      as [s5 [s6 [_ [He _]]]].
    discriminate He.
  - exists s. unfold loadDictionaries in Hload.
    destruct (forOf (load_collection dir) root start_run) as [s'|e' s'] eqn:Hrun; [discriminate|].
    injection Hload as <- <-. rewrite (load_throws _ _ _ _ _ Hrun). split; [reflexivity|].
    intros searchTerm. unfold findTerm.
    assert (Hb : building (console_error (lit "Error loading dictionaries:") s')).
    { constructor. pose proof (load_collections_building dir root start_run building_start) as H.
      now rewrite Hrun in H. }
    now rewrite (building_not_ready _ Hb).
Qed.

End ClassBased.

Lemma null_record_fails_the_load_witness :
  exists s,
    Searcher.loadDictionaries
      (lib := library_with_null)
      (lit "dictionaries") [(lit "jmdict", Directory [Sample.file "a.json" []])]
      Searcher.start_run
    = Abrupt TypeError s.
Proof.
  destruct (null_record_fails_the_load
              (lib := library_with_null)
              (lit "dictionaries") [(lit "jmdict", Directory [Sample.file "a.json" []])]
              (lit "jmdict") [Sample.file "a.json" []] (Sample.file "a.json" [])
              (JArr [Sample.neko; JNull]))
    as [s [Hs _]].
  - now left.
  - now left.
  - reflexivity.
  - reflexivity.
  - right. now left.
  - exists s. exact Hs.
Defined.

Section Functional.
Import Functional.

Lemma filterR_null key termBank :
  In JNull termBank -> filterR (matches key) termBank = Throw TypeError.
Proof.
  induction termBank as [|x rest IH]; intros Hnull; [destruct Hnull|]. simpl.
  destruct (indexable x) eqn:Hx.
  - rewrite (ResolverLaws.matches_total key x Hx). cbn [mbind result_bind].
    destruct Hnull as [->|Hnull]; [discriminate|]. now rewrite (IH Hnull).
  - destruct x; try discriminate; reflexivity.
Qed.

(** In the functional implementation a [null] among the records of a
    collection stops every query at that collection with a TypeError:
    nothing of the collection is printed, even when other records of it
    match, and the collections after it are not searched. *)
Theorem null_record_stops_the_query build searchTerm s collection after :
  In JNull (snd collection) ->
  forOf (processCollection build searchTerm) (collection :: after) s = Abrupt TypeError s.
Proof.
  intros Hnull. simpl. unfold processCollection. now rewrite (filterR_null _ _ Hnull).
Qed.

End Functional.

Lemma null_record_stops_the_query_witness :
  Functional.processQuery (Ok (Sample.tokenizer_to (lit "hashiru")))
    [(lit "jmdict", [Sample.neko; JNull]); (lit "other", [Sample.neko])] Sample.neko_kana
  = Abrupt TypeError Functional.start_query.
Proof.
  apply (null_record_stops_the_query (Ok (Sample.tokenizer_to (lit "hashiru"))) Sample.neko_kana
           Functional.start_query (lit "jmdict", [Sample.neko; JNull])
           [(lit "other", [Sample.neko])]).
  right. now left.
Defined.

End NullRecords.
